(** * Base64 encoder in C99 ([encoder.c]): shallow embedding and verification

    The program has two operations: the single-block transform
    [base64_encode_block] and the stream driver [base64_encode].  Both are
    embedded as executable Rocq functions.  Machine integers are [Z] with
    their wrap-around written out, arrays are lists accessed through
    bounds-checked [load] and [store], and the C library stream is a record
    holding the unread bytes (finitely many), the end-of-file indicator and
    whether the bytes are followed by a read error. *)

From Stdlib Require Import ZArith NArith Ascii String Bool Lia List.
From Stdlib Require Import Strings.Byte.
Import ListNotations.
Local Open Scope Z_scope.

(** ** Faults and the result monad *)

(** What can go wrong in the C program: undefined behaviour (an access
    outside an array, a shift by the width of the type or more), a failing
    [assert], and, for the model only, an exhausted iteration budget of the
    [while] loop. *)
Inductive fault : Type :=
| UndefinedBehaviour
| AssertionFailed
| OutOfFuel.

Inductive result (A : Type) : Type :=
| Ok (a : A)
| Fault (f : fault).
Arguments Ok {A} a.
Arguments Fault {A} f.

Definition bind {A B : Type} (m : result A) (k : A -> result B) : result B :=
  match m with
  | Ok a => k a
  | Fault f => Fault f
  end.

Notation "x <- m ;; k" := (bind m (fun x => k))
  (at level 61, m at next level, right associativity).
Notation "' p <- m ;; k" := (bind m (fun p => k))
  (at level 61, p pattern, m at next level, right associativity).

(** [for (size_t i = lo; i < hi; ++i) body]: [n] iterations starting at [i]. *)
Fixpoint for_loop {S : Type} (n : nat) (i : Z) (body : Z -> S -> result S)
  (s : S) : result S :=
  match n with
  | O => Ok s
  | S n' => s' <- body i s ;; for_loop n' (i + 1) body s'
  end.

Definition for_range {S : Type} (lo hi : Z) (body : Z -> S -> result S)
  (s : S) : result S :=
  for_loop (Z.to_nat (hi - lo)) lo body s.

(** ** Machine integers *)

(** [uint32_t]: values in [0, 2^32); shifting by 32 or more is undefined. *)
Module U32.

Definition wrap (x : Z) : Z := x mod 2 ^ 32.

(** [x << k] *)
Definition shl (x k : Z) : result Z :=
  if (0 <=? k) && (k <? 32) then Ok (wrap (Z.shiftl x k))
  else Fault UndefinedBehaviour.

(** [x >> k] *)
Definition shr (x k : Z) : result Z :=
  if (0 <=? k) && (k <? 32) then Ok (Z.shiftr x k)
  else Fault UndefinedBehaviour.

End U32.

(** [size_t]: 64-bit unsigned arithmetic, wrapping. *)
Module SizeT.

Definition wrap (x : Z) : Z := x mod 2 ^ 64.

Definition add (a b : Z) : Z := wrap (a + b).

Definition sub (a b : Z) : Z := wrap (a - b).

Definition mul (a b : Z) : Z := wrap (a * b).

Definition div (a b : Z) : Z := a / b.

End SizeT.

(** [(uint32_t) b] for a [uint8_t] value [b]. *)
Definition u8 (b : byte) : Z := Z.of_N (Byte.to_N b).

(** ** Arrays *)

Definition load {A : Type} (a : list A) (i : Z) : result A :=
  if i <? 0 then Fault UndefinedBehaviour
  else match nth_error a (Z.to_nat i) with
       | Some v => Ok v
       | None => Fault UndefinedBehaviour
       end.

Fixpoint update {A : Type} (a : list A) (n : nat) (v : A) : list A :=
  match a, n with
  | [], _ => []
  | _ :: a', O => v :: a'
  | x :: a', S n' => x :: update a' n' v
  end.

Definition store {A : Type} (a : list A) (i : Z) (v : A) : result (list A) :=
  if (0 <=? i) && (i <? Z.of_nat (length a)) then Ok (update a (Z.to_nat i) v)
  else Fault UndefinedBehaviour.

(** ** The symbol table *)

Definition NUL : ascii := Ascii.zero.
Definition CR : ascii := ascii_of_nat 13.
Definition LF : ascii := ascii_of_nat 10.
Definition PAD : ascii := "="%char.

Definition alphabet : list ascii :=
  list_ascii_of_string
    "ABCDEFGHIJKLMNOPQRSTUVWXYZabcdefghijklmnopqrstuvwxyz0123456789+/".

(** [const char base64_table[] = "..."]: the 64 symbols and the terminating
    zero of the string literal. *)
Definition base64_table : list ascii := alphabet ++ [NUL].

(** ** The block transform *)

(** [len_out = (8*len_in + 5)/6] *)
Definition len_out_of (len_in : Z) : Z :=
  SizeT.div (SizeT.add (SizeT.mul 8 len_in) 5) 6.

(** Stage 1, one iteration: [buf |= ((uint32_t)buf_in[i]) << (8 * (3-i-1))] *)
Definition pack_step (buf_in : list byte) (i : Z) (buf : Z) : result Z :=
  b <- load buf_in i ;;
  x <- U32.shl (u8 b) (SizeT.mul 8 (SizeT.sub (SizeT.sub 3 i) 1)) ;;
  Ok (Z.lor buf x).

Definition pack (buf_in : list byte) (len_in : Z) : result Z :=
  for_range 0 len_in (pack_step buf_in) 0.

(** The table index of iteration [i]: [(buf & msk) >> (6*(4-i-1))] *)
Definition sym_index (buf msk i : Z) : result Z :=
  U32.shr (Z.land buf msk) (SizeT.mul 6 (SizeT.sub (SizeT.sub 4 i) 1)).

(** Stage 2, one iteration with the loop's step [msk >>= 6]. *)
Definition symbol_step (buf : Z) (i : Z) (s : list ascii * Z)
  : result (list ascii * Z) :=
  let '(buf_out, msk) := s in
  idx <- sym_index buf msk i ;;
  c <- load base64_table idx ;;
  buf_out' <- store buf_out i c ;;
  msk' <- U32.shr msk 6 ;;
  Ok (buf_out', msk').

(** [uint32_t msk = ((uint32_t)0x3F) << (3*6)] *)
Definition msk_init : result Z := U32.shl 63 (3 * 6).

(** Stage 2.5, one iteration: [buf_out[i] = '='] *)
Definition pad_step (i : Z) (buf_out : list ascii) : result (list ascii) :=
  store buf_out i PAD.

(** The memory the transform works on: the two arrays its pointer
    arguments designate (in the driver, two distinct local arrays). *)
Record buffers : Type := mkBuffers {
  buf_out : list ascii;       (* char *buf_out *)
  buf_in : list byte          (* uint8_t *buf_in *)
}.

Definition base64_encode_block (m : buffers) (len_in : Z) : result buffers :=
  let len_out := len_out_of len_in in
  buf <- pack (buf_in m) len_in ;;
  msk <- msk_init ;;
  '(out1, _) <- for_range 0 len_out (symbol_step buf) (buf_out m, msk) ;;
  out2 <- for_range len_out 4 pad_step out1 ;;
  Ok {| buf_out := out2; buf_in := buf_in m |}.

(** ** The C library streams *)

(** An input stream: the bytes it still delivers (finitely many), the
    end-of-file indicator, and whether a read that asks for more than is
    left meets a read error (a directory, a failing device) instead of the
    end of the file. *)
Record FILE : Type := mkFILE {
  unread : list byte;
  eof_ind : bool;
  read_fails : bool
}.

(** A stream as [fopen] returns it for a file that can be read to its end:
    positioned at the start, indicator clear. *)
Definition fopen (contents : list byte) : FILE :=
  {| unread := contents; eof_ind := false; read_fails := false |}.

(** A stream as [fopen] returns it for a file whose bytes are followed by
    the end of the file ([fails = false]) or by a read error. *)
Definition fopen_device (contents : list byte) (fails : bool) : FILE :=
  {| unread := contents; eof_ind := false; read_fails := fails |}.

Definition feof (f : FILE) : bool := eof_ind f.

(** [fread(buf, 1, nmemb, f)]: reads until [nmemb] bytes are stored, or the
    end of the file is met, which sets the end-of-file indicator, or a read
    error occurs, which leaves that indicator clear (it sets the error
    indicator, which the program never reads); a set end-of-file indicator
    makes every read return 0.  The bytes of [buf] beyond the count keep
    their values.  Result: the count, the buffer and the stream. *)
Definition fread (buf : list byte) (nmemb : nat) (f : FILE)
  : Z * list byte * FILE :=
  if eof_ind f then (0, buf, f)
  else
    let got := firstn nmemb (unread f) in
    (Z.of_nat (length got),
     got ++ skipn (length got) buf,
     {| unread := skipn nmemb (unread f);
        eof_ind := (length got <? nmemb)%nat && negb (read_fails f);
        read_fails := read_fails f |}).

(** The characters [fprintf(out, "%s", s)] writes: those before the first
    zero; running off the array is undefined. *)
Fixpoint c_string (s : list ascii) : result (list ascii) :=
  match s with
  | [] => Fault UndefinedBehaviour
  | c :: s' =>
      if Ascii.eqb c NUL then Ok []
      else t <- c_string s' ;; Ok (c :: t)
  end.

(** ** The stream driver *)

Record state : Type := mkState {
  st_in : FILE;               (* FILE *in *)
  st_out : list ascii;        (* everything written to FILE *out *)
  st_mem : buffers;           (* uint8_t buf_in[3]; char buf_out[4 + 1] *)
  st_eof : bool               (* bool eof *)
}.

(** [for (size_t i = 0; i < 19 && !eof; ++i) { ... }], with [n = 19 - i]
    iterations left. *)
Fixpoint line_loop (n : nat) (st : state) : result state :=
  match n with
  | O => Ok st
  | S n' =>
      if st_eof st then Ok st
      else
        let '(nread, buf_in1, f) := fread (buf_in (st_mem st)) 3 (st_in st) in
        let m := {| buf_out := buf_out (st_mem st); buf_in := buf_in1 |} in
        if nread =? 0 then
          if feof f then
            Ok {| st_in := f; st_out := st_out st; st_mem := m;
                  st_eof := true |}
          else Fault AssertionFailed
        else
          m' <- base64_encode_block m nread ;;
          s <- c_string (buf_out m') ;;
          line_loop n'
            {| st_in := f; st_out := st_out st ++ s; st_mem := m';
               st_eof := st_eof st |}
  end.

(** [fprintf(out, "\r\n")] *)
Definition put_crlf (st : state) : state :=
  {| st_in := st_in st; st_out := st_out st ++ [CR; LF];
     st_mem := st_mem st; st_eof := st_eof st |}.

(** [while (!eof) { for ...; fprintf(out, "\r\n"); }] *)
Fixpoint while_loop (fuel : nat) (st : state) : result state :=
  if st_eof st then Ok st
  else match fuel with
       | O => Fault OutOfFuel
       | S fuel' =>
           st1 <- line_loop 19 st ;;
           while_loop fuel' (put_crlf st1)
       end.

(** The state at the [while]: [buf_out] is zeroed by its initialiser;
    [buf_in] has none, and the three bytes it holds before the first read
    are a parameter of the model. *)
Definition init_state (g0 g1 g2 : byte) (f : FILE) : state :=
  {| st_in := f; st_out := [];
     st_mem := {| buf_out := [NUL; NUL; NUL; NUL; NUL];
                  buf_in := [g0; g1; g2] |};
     st_eof := feof f |}.

(** A pass of the [while] loop that does not end it has read 19 blocks, so
    one pass more than there are unread bytes is always enough (see
    [base64_encode_terminates]). *)
Definition base64_encode (g0 g1 g2 : byte) (f : FILE) : result state :=
  while_loop (S (length (unread f))) (init_state g0 g1 g2 f).

(** * Vocabulary of the properties *)

(** ** Values and symbols *)

(** The 24-bit field with byte 0 in the most significant 8 bits. *)
Definition word24 (x0 x1 x2 : Z) : Z := x0 * 2 ^ 16 + x1 * 2 ^ 8 + x2.

(** The [i]-th 6-bit group of a 24-bit field, counted from the most
    significant end. *)
Definition sextet (v i : Z) : Z := (v / 2 ^ (18 - 6 * i)) mod 64.

(** The table entry for a 6-bit value. *)
Definition symbol (k : Z) : ascii := nth (Z.to_nat k) alphabet NUL.

(** The mask of iteration [i]: the initial mask after [i] steps [msk >>= 6]. *)
Definition msk_at (i : Z) : Z := Z.shiftr 16515072 (6 * i).

(** The byte at position [i] of a block of [len_in] bytes, as a number;
    positions from [len_in] on count as zero, whatever the array holds. *)
Definition block_byte (buf_in : list byte) (len_in : Z) (i : nat) : Z :=
  if Z.of_nat i <? len_in then
    match nth_error buf_in i with
    | Some b => u8 b
    | None => 0
    end
  else 0.

(** The four characters written for a block of one, two or three bytes. *)
Definition encode_bytes (block : list byte) : list ascii :=
  match block with
  | [b0] =>
      let v := word24 (u8 b0) 0 0 in
      [symbol (sextet v 0); symbol (sextet v 1); PAD; PAD]
  | [b0; b1] =>
      let v := word24 (u8 b0) (u8 b1) 0 in
      [symbol (sextet v 0); symbol (sextet v 1); symbol (sextet v 2); PAD]
  | [b0; b1; b2] =>
      let v := word24 (u8 b0) (u8 b1) (u8 b2) in
      [symbol (sextet v 0); symbol (sextet v 1); symbol (sextet v 2);
       symbol (sextet v 3)]
  | _ => []
  end.

(** ** Characters *)

(** Position of a character in a list, counted from [i]. *)
Fixpoint index_from (c : ascii) (l : list ascii) (i : Z) : option Z :=
  match l with
  | [] => None
  | x :: l' => if Ascii.eqb x c then Some i else index_from c l' (i + 1)
  end.

(** The 6-bit value a character of the alphabet stands for. *)
Definition sextet_of (c : ascii) : option Z := index_from c alphabet 0.

(** Characters that are neither part of a line break nor a terminator. *)
Definition plain (c : ascii) : Prop := c <> CR /\ c <> LF /\ c <> NUL.

(** A well-formed encoded block: four characters, none part of a line
    break or a terminator. *)
Definition is_quad (q : list ascii) : Prop :=
  length q = 4%nat /\ Forall plain q.

Definition symbol_checks (n : nat) : bool :=
  let c := nth n alphabet NUL in
  match sextet_of c with
  | Some k => k =? Z.of_nat n
  | None => false
  end
  && negb (Ascii.eqb c PAD) && negb (Ascii.eqb c CR)
  && negb (Ascii.eqb c LF) && negb (Ascii.eqb c NUL).

(** ** The driver's state *)

(** The bytes a stream can still deliver. *)
Definition avail (f : FILE) : list byte :=
  if eof_ind f then [] else unread f.

(** The driver's buffers: three input bytes, and an output array whose
    fifth element is the terminating zero. *)
Definition mem_ok (m : buffers) : Prop :=
  length (buf_in m) = 3%nat /\ nth_error (buf_out m) 4 = Some NUL.

Definition finished (st0 st' : state) (text : list ascii) : Prop :=
  st_out st' = st_out st0 ++ text /\
  st_eof st' = true /\
  avail (st_in st') = [] /\
  mem_ok (st_mem st').

(** The rest of a run, from inside a pass with [k] blocks to go. *)
Abbreviation rest_of_run k fuel st :=
  (bind (line_loop k st) (fun st1 => while_loop fuel (put_crlf st1)))
  (only parsing).

(** ** The text *)

(** The input cut into the blocks the reads deliver. *)
Fixpoint blocks (bs : list byte) : list (list byte) :=
  match bs with
  | [] => []
  | [a] => [[a]]
  | [a; b] => [[a; b]]
  | a :: b :: c :: rest => [a; b; c] :: blocks rest
  end.

(** What is written from a point where the current pass may still take [k]
    blocks and the texts in [bl] are still to come: a pass that has taken
    its 19 blocks ends with a line break and a new pass starts, and the pass
    that meets the end of the input writes the last line break. *)
Fixpoint render (k : nat) (bl : list (list ascii)) : list ascii :=
  match bl with
  | [] =>
      match k with
      | O => [CR; LF] ++ [CR; LF]
      | S _ => [CR; LF]
      end
  | b :: rest =>
      match k with
      | O => [CR; LF] ++ b ++ render 18 rest
      | S k' => b ++ render k' rest
      end
  end.

(** The whole text written for the bytes [bs]. *)
Definition encoded_text (bs : list byte) : list ascii :=
  render 19 (map encode_bytes (blocks bs)).

(** A line of the output: its blocks, then CRLF. *)
Definition line_text (line : list (list ascii)) : list ascii :=
  concat line ++ [CR; LF].

(** The lines [render] writes: [cur] holds the blocks of the current line
    and [k] is the number of blocks it may still take. *)
Fixpoint lines_of (k : nat) (cur : list (list ascii))
  (bl : list (list ascii)) : list (list (list ascii)) :=
  match bl with
  | [] =>
      match k with
      | O => [cur; []]
      | S _ => [cur]
      end
  | b :: rest =>
      match k with
      | O => cur :: lines_of 18 [b] rest
      | S k' => lines_of k' (cur ++ [b]) rest
      end
  end.

(** A 57-byte input: 57 times the letter A. *)
Definition input57 : list byte := repeat x41 57.

(** ** A reference decoder *)

(** The program has no decoder.  These definitions follow the words of the
    round-trip property: the text with its CRLF pairs stripped, read by
    the standard Base64 decoding over the same alphabet with [=] padding. *)

Fixpoint strip_crlf (cs : list ascii) : list ascii :=
  match cs with
  | [] => []
  | c :: cs' =>
      match cs' with
      | d :: cs'' =>
          if Ascii.eqb c CR && Ascii.eqb d LF then strip_crlf cs''
          else c :: strip_crlf cs'
      | [] => [c]
      end
  end.

Definition byte_of (z : Z) : byte :=
  match Byte.of_N (Z.to_N (z mod 256)) with
  | Some b => b
  | None => x00
  end.

(** Four characters stand for 24 bits, most significant first; a group
    that ends in padding ends the text and gives one or two bytes. *)
Fixpoint reference_decode (cs : list ascii) : option (list byte) :=
  match cs with
  | [] => Some []
  | c0 :: c1 :: c2 :: c3 :: rest =>
      match sextet_of c0, sextet_of c1 with
      | Some s0, Some s1 =>
          if Ascii.eqb c2 PAD then
            if Ascii.eqb c3 PAD then
              match rest with
              | [] => Some [byte_of ((s0 * 2 ^ 18 + s1 * 2 ^ 12) / 2 ^ 16)]
              | _ :: _ => None
              end
            else None
          else
            match sextet_of c2 with
            | None => None
            | Some s2 =>
                let v := s0 * 2 ^ 18 + s1 * 2 ^ 12 + s2 * 2 ^ 6 in
                if Ascii.eqb c3 PAD then
                  match rest with
                  | [] => Some [byte_of (v / 2 ^ 16); byte_of (v / 2 ^ 8)]
                  | _ :: _ => None
                  end
                else
                  match sextet_of c3 with
                  | None => None
                  | Some s3 =>
                      match reference_decode rest with
                      | None => None
                      | Some bs =>
                          Some (byte_of ((v + s3) / 2 ^ 16)
                                :: byte_of ((v + s3) / 2 ^ 8)
                                :: byte_of (v + s3) :: bs)
                      end
                  end
            end
      | _, _ => None
      end
  | _ => None
  end.

(** ** The program entry *)

(** What [main] writes to [stderr]: a message of its own, or a [perror]
    line, which the C library completes with the text of [errno]. *)
Inductive diagnostic : Type :=
| Message (text : string)
| Perror (prefix : string).

(** What [main] meets outside the program: for a path [fopen] can open,
    the bytes the file delivers (finitely many) and whether they are
    followed by a read error instead of the end of the file (a directory
    opens and fails at the first read); and whether [fclose] reports a
    failure. *)
Record environment : Type := mkEnvironment {
  file_at : string -> option (list byte * bool);
  fclose_fails : bool
}.

Record outcome : Type := mkOutcome {
  exit_status : Z;            (* the value [main] returns *)
  std_out : list ascii;       (* everything written to [stdout] *)
  std_err : list diagnostic   (* everything written to [stderr] *)
}.

Definition newline : string := String LF EmptyString.

(** [int main(int argc, char *argv[])], with [argc] the length of [argv]. *)
Definition main (env : environment) (g0 g1 g2 : byte) (argv : list string)
  : result outcome :=
  let argc := Z.of_nat (length argv) in
  if negb (argc =? 2) then
    Ok {| exit_status := 1; std_out := [];
          std_err := [Message ("No file name passed." ++ newline)] |}
  else
    match nth_error argv 1 with
    | None => Fault UndefinedBehaviour
    | Some path =>
        match file_at env path with
        | None =>
            Ok {| exit_status := 2; std_out := [];
                  std_err := [Perror "Failed to open file"] |}
        | Some (contents, fails) =>
            st <- base64_encode g0 g1 g2 (fopen_device contents fails) ;;
            if fclose_fails env then
              Ok {| exit_status := 3; std_out := st_out st;
                    std_err := [Perror "Failed to close file"] |}
            else
              Ok {| exit_status := 0; std_out := st_out st; std_err := [] |}
        end
    end.

(** ** Further vocabulary *)

(** The character RFC 2045 assigns to a 6-bit value: [A]-[Z], [a]-[z],
    [0]-[9], [+] and [/]. *)
Definition rfc2045_char (k : Z) : ascii :=
  ascii_of_nat
    (Z.to_nat
       (if k <? 26 then 65 + k
        else if k <? 52 then 97 + (k - 26)
        else if k <? 62 then 48 + (k - 52)
        else if k =? 62 then 43
        else 47)).

Definition table_checks (n : nat) : bool :=
  match load base64_table (Z.of_nat n) with
  | Ok c => Ascii.eqb c (rfc2045_char (Z.of_nat n))
  | Fault _ => false
  end.

(** The number of blocks an input of [n] bytes is read in. *)
Definition block_count (n : Z) : Z := (n + 2) / 3.

(** A stream whose indicator, once set, leaves nothing to read: every
    stream [fopen] returns, and every stream [fread] leaves behind. *)
Definition stream_ok (f : FILE) : Prop :=
  eof_ind f = true -> unread f = [].

(** The characters of the wire format. *)
Definition wire_char (c : ascii) : Prop :=
  In c alphabet \/ c = PAD \/ c = CR \/ c = LF.

(** * Verification *)

(** ** Bit-level facts *)

Lemma u8_range (b : byte) : 0 <= u8 b < 256.
Proof.
  unfold u8. pose proof (Byte.to_N_bounded b). lia.
Qed.

Lemma land_shifted_low (hi lo k : Z) :
  0 <= k -> 0 <= lo < 2 ^ k -> Z.land (hi * 2 ^ k) lo = 0.
Proof.
  intros Hk Hlo. apply Z.bits_inj'. intros n Hn.
  rewrite Z.land_spec, Z.bits_0.
  destruct (Z.lt_ge_cases n k) as [Hlt | Hge].
  - rewrite Z.mul_pow2_bits_low by lia. reflexivity.
  - rewrite <- (Z.mod_small lo (2 ^ k)) by lia.
    rewrite Z.mod_pow2_bits_high by lia. apply andb_false_r.
Qed.

(** OR-ing a value into the zero bits below a shifted one adds it. *)
Lemma lor_shifted_add (hi lo k : Z) :
  0 <= k -> 0 <= lo < 2 ^ k -> Z.lor (hi * 2 ^ k) lo = hi * 2 ^ k + lo.
Proof.
  intros Hk Hlo. pose proof (land_shifted_low hi lo k Hk Hlo) as Hd.
  rewrite <- Z.lxor_lor by exact Hd. symmetry.
  apply Z.add_nocarry_lxor. exact Hd.
Qed.

(** Masking six bits at position [s] and shifting them down. *)
Lemma shiftr_land_mask (buf msk s : Z) :
  0 <= s -> Z.shiftr msk s = 63 ->
  Z.shiftr (Z.land buf msk) s = (buf / 2 ^ s) mod 64.
Proof.
  intros Hs Hm. rewrite Z.shiftr_land, Hm.
  change 63 with (Z.ones 6). rewrite Z.land_ones by lia.
  rewrite Z.shiftr_div_pow2 by lia. reflexivity.
Qed.

(** ** Stage 1: packing *)

Lemma word24_range (x0 x1 x2 : Z) :
  0 <= x0 < 256 -> 0 <= x1 < 256 -> 0 <= x2 < 256 ->
  0 <= word24 x0 x1 x2 < 2 ^ 24.
Proof. unfold word24. lia. Qed.

Lemma shl_byte (x k : Z) :
  0 <= x < 256 -> 0 <= k <= 16 ->
  U32.wrap (Z.shiftl x k) = x * 2 ^ k.
Proof.
  intros Hx Hk. unfold U32.wrap. rewrite Z.shiftl_mul_pow2 by lia.
  apply Z.mod_small.
  assert (0 < 2 ^ k <= 2 ^ 16) by (split; [lia | apply Z.pow_le_mono_r; lia]).
  nia.
Qed.

Lemma pack_step_0 (b0 : byte) (l : list byte) (buf : Z) :
  pack_step (b0 :: l) 0 buf = Ok (Z.lor buf (u8 b0 * 2 ^ 16)).
Proof.
  rewrite <- (shl_byte (u8 b0) 16) by (pose proof (u8_range b0); lia).
  reflexivity.
Qed.

Lemma pack_step_1 (b0 b1 : byte) (l : list byte) (buf : Z) :
  pack_step (b0 :: b1 :: l) 1 buf = Ok (Z.lor buf (u8 b1 * 2 ^ 8)).
Proof.
  rewrite <- (shl_byte (u8 b1) 8) by (pose proof (u8_range b1); lia).
  reflexivity.
Qed.

Lemma pack_step_2 (b0 b1 b2 : byte) (l : list byte) (buf : Z) :
  pack_step (b0 :: b1 :: b2 :: l) 2 buf = Ok (Z.lor buf (u8 b2)).
Proof.
  transitivity (Ok (Z.lor buf (U32.wrap (Z.shiftl (u8 b2) 0)))).
  - reflexivity.
  - rewrite shl_byte by (pose proof (u8_range b2); lia).
    do 2 f_equal. lia.
Qed.

Lemma pack_1 (b0 : byte) (l : list byte) :
  pack (b0 :: l) 1 = Ok (word24 (u8 b0) 0 0).
Proof.
  unfold pack, for_range. change (Z.to_nat (1 - 0)) with 1%nat.
  cbn [for_loop]. rewrite pack_step_0. cbn [bind].
  rewrite Z.lor_0_l. unfold word24. f_equal. lia.
Qed.

Lemma pack_2 (b0 b1 : byte) (l : list byte) :
  pack (b0 :: b1 :: l) 2 = Ok (word24 (u8 b0) (u8 b1) 0).
Proof.
  pose proof (u8_range b0). pose proof (u8_range b1).
  unfold pack, for_range. change (Z.to_nat (2 - 0)) with 2%nat.
  cbn [for_loop]. rewrite pack_step_0. cbn [bind].
  change (0 + 1) with 1. rewrite pack_step_1. cbn [bind].
  rewrite Z.lor_0_l, lor_shifted_add by lia.
  unfold word24. f_equal. lia.
Qed.

Lemma pack_3 (b0 b1 b2 : byte) (l : list byte) :
  pack (b0 :: b1 :: b2 :: l) 3 = Ok (word24 (u8 b0) (u8 b1) (u8 b2)).
Proof.
  pose proof (u8_range b0). pose proof (u8_range b1).
  pose proof (u8_range b2).
  unfold pack, for_range. change (Z.to_nat (3 - 0)) with 3%nat.
  cbn [for_loop]. rewrite pack_step_0. cbn [bind].
  change (0 + 1) with 1. rewrite pack_step_1. cbn [bind].
  change (1 + 1) with 2. rewrite pack_step_2. cbn [bind].
  rewrite Z.lor_0_l, lor_shifted_add by lia.
  replace (u8 b0 * 2 ^ 16 + u8 b1 * 2 ^ 8)
    with ((u8 b0 * 2 ^ 8 + u8 b1) * 2 ^ 8) by lia.
  rewrite lor_shifted_add by lia.
  unfold word24. f_equal. lia.
Qed.

Lemma pack_spec (inb : list byte) (len_in : Z) :
  1 <= len_in <= 3 ->
  len_in <= Z.of_nat (length inb) ->
  pack inb len_in
  = Ok (word24 (block_byte inb len_in 0) (block_byte inb len_in 1)
          (block_byte inb len_in 2)).
Proof.
  intros Hlen Hin.
  assert (Hc : len_in = 1 \/ len_in = 2 \/ len_in = 3) by lia.
  destruct Hc as [-> | [-> | ->]].
  - destruct inb as [| b0 l]; cbn [length] in Hin; [lia |].
    apply pack_1.
  - destruct inb as [| b0 [| b1 l]]; cbn [length] in Hin; try lia.
    apply pack_2.
  - destruct inb as [| b0 [| b1 [| b2 l]]]; cbn [length] in Hin; try lia.
    apply pack_3.
Qed.

(** ** Stage 2: symbols *)

Lemma sextet_range (v i : Z) : 0 <= sextet v i <= 63.
Proof.
  unfold sextet. pose proof (Z.mod_pos_bound (v / 2 ^ (18 - 6 * i)) 64). lia.
Qed.

Lemma msk_init_eq : msk_init = Ok (msk_at 0).
Proof. reflexivity. Qed.

Lemma alphabet_length : length alphabet = 64%nat.
Proof. reflexivity. Qed.

Lemma load_table (k : Z) :
  0 <= k <= 63 -> load base64_table k = Ok (symbol k).
Proof.
  intros Hk. unfold load, base64_table, symbol.
  destruct (Z.ltb_spec k 0) as [Hneg | _]; [lia |].
  assert (Hlen : (Z.to_nat k < length alphabet)%nat)
    by (rewrite alphabet_length; lia).
  rewrite nth_error_app1 by exact Hlen.
  rewrite (nth_error_nth' alphabet NUL Hlen). reflexivity.
Qed.

Lemma store_ok {A : Type} (a : list A) (i : Z) (v : A) :
  0 <= i < Z.of_nat (length a) ->
  store a i v = Ok (update a (Z.to_nat i) v).
Proof.
  intros Hi. unfold store.
  destruct (Z.leb_spec 0 i); [| lia].
  destruct (Z.ltb_spec i (Z.of_nat (length a))); [| lia].
  reflexivity.
Qed.

Lemma update_length {A : Type} (a : list A) (n : nat) (v : A) :
  length (update a n v) = length a.
Proof.
  revert n. induction a as [| x a IH]; intros [| n]; simpl; auto.
Qed.

Lemma sym_index_shift (buf msk i : Z) :
  0 <= i <= 3 ->
  sym_index buf msk i = Ok (Z.shiftr (Z.land buf msk) (18 - 6 * i)).
Proof.
  intros Hi.
  assert (Hc : i = 0 \/ i = 1 \/ i = 2 \/ i = 3) by lia.
  destruct Hc as [-> | [-> | [-> | ->]]]; reflexivity.
Qed.

Lemma sym_index_at (buf i : Z) :
  0 <= i <= 3 -> sym_index buf (msk_at i) i = Ok (sextet buf i).
Proof.
  intros Hi. rewrite sym_index_shift by exact Hi.
  unfold sextet. f_equal. apply shiftr_land_mask; [lia |].
  assert (Hc : i = 0 \/ i = 1 \/ i = 2 \/ i = 3) by lia.
  destruct Hc as [-> | [-> | [-> | ->]]]; reflexivity.
Qed.

Lemma msk_step (i : Z) :
  0 <= i <= 3 -> U32.shr (msk_at i) 6 = Ok (msk_at (i + 1)).
Proof.
  intros Hi.
  assert (Hc : i = 0 \/ i = 1 \/ i = 2 \/ i = 3) by lia.
  destruct Hc as [-> | [-> | [-> | ->]]]; reflexivity.
Qed.

Lemma symbol_step_at (buf i : Z) (buf_out : list ascii) :
  0 <= i <= 3 -> i < Z.of_nat (length buf_out) ->
  symbol_step buf i (buf_out, msk_at i)
  = Ok (update buf_out (Z.to_nat i) (symbol (sextet buf i)), msk_at (i + 1)).
Proof.
  intros Hi Hlen. unfold symbol_step.
  rewrite sym_index_at by exact Hi. cbn [bind].
  rewrite load_table by apply sextet_range. cbn [bind].
  rewrite store_ok by lia. cbn [bind].
  rewrite msk_step by exact Hi. reflexivity.
Qed.

(** ** The block transform as a function of the bytes *)

Ltac step_symbol :=
  rewrite symbol_step_at
    by (repeat rewrite update_length; cbn [length]; lia);
  cbn [bind].

Ltac step_pad :=
  unfold pad_step at 1;
  rewrite store_ok
    by (repeat rewrite update_length; cbn [length]; lia);
  cbn [bind].

Ltac fold_indices :=
  change (0 + 1) with 1; change (1 + 1) with 2; change (2 + 1) with 3;
  change (3 + 1) with 4;
  change (Z.to_nat 0) with 0%nat; change (Z.to_nat 1) with 1%nat;
  change (Z.to_nat 2) with 2%nat; change (Z.to_nat 3) with 3%nat.

Lemma block_1 (o0 o1 o2 o3 : ascii) (rest : list ascii) (b0 : byte)
  (l : list byte) :
  base64_encode_block
    {| buf_out := o0 :: o1 :: o2 :: o3 :: rest; buf_in := b0 :: l |} 1
  = Ok {| buf_out := encode_bytes [b0] ++ rest; buf_in := b0 :: l |}.
Proof.
  unfold base64_encode_block. cbn [buf_in buf_out].
  rewrite pack_1, msk_init_eq. cbn [bind].
  change (len_out_of 1) with 2. unfold for_range.
  change (Z.to_nat (2 - 0)) with 2%nat. change (Z.to_nat (4 - 2)) with 2%nat.
  cbn [for_loop]. fold_indices.
  step_symbol. fold_indices. step_symbol. fold_indices.
  step_pad. step_pad. reflexivity.
Qed.

Lemma block_2 (o0 o1 o2 o3 : ascii) (rest : list ascii) (b0 b1 : byte)
  (l : list byte) :
  base64_encode_block
    {| buf_out := o0 :: o1 :: o2 :: o3 :: rest; buf_in := b0 :: b1 :: l |} 2
  = Ok {| buf_out := encode_bytes [b0; b1] ++ rest;
          buf_in := b0 :: b1 :: l |}.
Proof.
  unfold base64_encode_block. cbn [buf_in buf_out].
  rewrite pack_2, msk_init_eq. cbn [bind].
  change (len_out_of 2) with 3. unfold for_range.
  change (Z.to_nat (3 - 0)) with 3%nat. change (Z.to_nat (4 - 3)) with 1%nat.
  cbn [for_loop]. fold_indices.
  step_symbol. fold_indices. step_symbol. fold_indices.
  step_symbol. fold_indices.
  step_pad. reflexivity.
Qed.

Lemma block_3 (o0 o1 o2 o3 : ascii) (rest : list ascii) (b0 b1 b2 : byte)
  (l : list byte) :
  base64_encode_block
    {| buf_out := o0 :: o1 :: o2 :: o3 :: rest;
       buf_in := b0 :: b1 :: b2 :: l |} 3
  = Ok {| buf_out := encode_bytes [b0; b1; b2] ++ rest;
          buf_in := b0 :: b1 :: b2 :: l |}.
Proof.
  unfold base64_encode_block. cbn [buf_in buf_out].
  rewrite pack_3, msk_init_eq. cbn [bind].
  change (len_out_of 3) with 4. unfold for_range.
  change (Z.to_nat (4 - 0)) with 4%nat. change (Z.to_nat (4 - 4)) with 0%nat.
  cbn [for_loop]. fold_indices.
  step_symbol. fold_indices. step_symbol. fold_indices.
  step_symbol. fold_indices. step_symbol.
  reflexivity.
Qed.

Lemma block_spec (m : buffers) (len_in : Z) :
  1 <= len_in <= 3 ->
  len_in <= Z.of_nat (length (buf_in m)) ->
  (4 <= length (buf_out m))%nat ->
  base64_encode_block m len_in
  = Ok {| buf_out := encode_bytes (firstn (Z.to_nat len_in) (buf_in m))
                     ++ skipn 4 (buf_out m);
          buf_in := buf_in m |}.
Proof.
  intros Hlen Hin Hout. destruct m as [out inb]. cbn [buf_in buf_out] in *.
  destruct out as [| o0 [| o1 [| o2 [| o3 rest]]]]; cbn [length] in Hout;
    try lia.
  assert (Hc : len_in = 1 \/ len_in = 2 \/ len_in = 3) by lia.
  destruct Hc as [-> | [-> | ->]].
  - destruct inb as [| b0 l]; cbn [length] in Hin; [lia |].
    apply block_1.
  - destruct inb as [| b0 [| b1 l]]; cbn [length] in Hin; try lia.
    apply block_2.
  - destruct inb as [| b0 [| b1 [| b2 l]]]; cbn [length] in Hin; try lia.
    apply block_3.
Qed.

Lemma len_out_cases (len_in : Z) :
  1 <= len_in <= 3 ->
  len_in = 1 /\ len_out_of len_in = 2 \/
  len_in = 2 /\ len_out_of len_in = 3 \/
  len_in = 3 /\ len_out_of len_in = 4.
Proof.
  intros H. assert (Hc : len_in = 1 \/ len_in = 2 \/ len_in = 3) by lia.
  destruct Hc as [-> | [-> | ->]]; [left | right; left | right; right];
    split; reflexivity.
Qed.

Lemma block_symbols (m : buffers) (len_in : Z) :
  1 <= len_in <= 3 ->
  len_in <= Z.of_nat (length (buf_in m)) ->
  (4 <= length (buf_out m))%nat ->
  exists m',
    base64_encode_block m len_in = Ok m' /\
    forall i, 0 <= i < len_out_of len_in ->
      nth_error (buf_out m') (Z.to_nat i)
      = Some (symbol (sextet (word24 (block_byte (buf_in m) len_in 0)
                                (block_byte (buf_in m) len_in 1)
                                (block_byte (buf_in m) len_in 2)) i)).
Proof.
  intros Hlen Hin Hout. eexists. split; [apply block_spec; assumption |].
  cbn [buf_out]. destruct m as [out inb]. cbn [buf_in buf_out] in *.
  intros i Hi.
  destruct (len_out_cases len_in Hlen) as [[-> He] | [[-> He] | [-> He]]];
    rewrite He in Hi.
  - destruct inb as [| b0 l]; cbn [length] in Hin; [lia |].
    assert (Hc : i = 0 \/ i = 1) by lia.
    destruct Hc as [-> | ->]; reflexivity.
  - destruct inb as [| b0 [| b1 l]]; cbn [length] in Hin; try lia.
    assert (Hc : i = 0 \/ i = 1 \/ i = 2) by lia.
    destruct Hc as [-> | [-> | ->]]; reflexivity.
  - destruct inb as [| b0 [| b1 [| b2 l]]]; cbn [length] in Hin; try lia.
    assert (Hc : i = 0 \/ i = 1 \/ i = 2 \/ i = 3) by lia.
    destruct Hc as [-> | [-> | [-> | ->]]]; reflexivity.
Qed.

(** ** The alphabet *)

Lemma alphabet_checked : forallb symbol_checks (seq 0 64) = true.
Proof. vm_compute. reflexivity. Qed.

Lemma symbol_facts (k : Z) :
  0 <= k <= 63 ->
  sextet_of (symbol k) = Some k /\ symbol k <> PAD /\ plain (symbol k).
Proof.
  intros Hk. pose proof alphabet_checked as Hall.
  rewrite forallb_forall in Hall.
  specialize (Hall (Z.to_nat k)).
  assert (Hin : In (Z.to_nat k) (seq 0 64)) by (apply in_seq; lia).
  specialize (Hall Hin). unfold symbol_checks in Hall. fold (symbol k) in Hall.
  repeat (apply andb_prop in Hall; destruct Hall as [Hall ?]).
  repeat match goal with
         | H : negb (Ascii.eqb _ _) = true |- _ =>
             apply negb_true_iff in H; apply Ascii.eqb_neq in H
         end.
  destruct (sextet_of (symbol k)) as [k' |]; [| discriminate].
  apply Z.eqb_eq in Hall. rewrite Z2Nat.id in Hall by lia. subst k'.
  unfold plain. auto.
Qed.

Lemma PAD_plain : plain PAD.
Proof. unfold plain, PAD, CR, LF, NUL. repeat split; discriminate. Qed.

Lemma symbol_sextet_plain (v i : Z) : plain (symbol (sextet v i)).
Proof. apply symbol_facts, sextet_range. Qed.

Lemma encode_bytes_length (block : list byte) :
  (1 <= length block <= 3)%nat -> length (encode_bytes block) = 4%nat.
Proof.
  destruct block as [| b0 [| b1 [| b2 [| b3 l]]]]; cbn [length]; try lia;
    reflexivity.
Qed.

Lemma encode_bytes_plain (block : list byte) :
  Forall plain (encode_bytes block).
Proof.
  destruct block as [| b0 [| b1 [| b2 [| b3 l]]]]; cbn [encode_bytes];
    repeat constructor;
    first [apply symbol_sextet_plain | apply PAD_plain].
Qed.

Lemma encode_bytes_quad (block : list byte) :
  (1 <= length block <= 3)%nat -> is_quad (encode_bytes block).
Proof.
  intros H. split; [apply encode_bytes_length; exact H |].
  apply encode_bytes_plain.
Qed.

Lemma symbol_from_table (v i : Z) :
  exists k, 0 <= k <= 63 /\
            load base64_table k = Ok (symbol (sextet v i)) /\
            symbol (sextet v i) <> PAD.
Proof.
  exists (sextet v i). pose proof (sextet_range v i) as Hr.
  split; [exact Hr |]. split; [apply load_table; exact Hr |].
  apply symbol_facts. exact Hr.
Qed.

Lemma count_pad_symbol (v i : Z) (q : list ascii) :
  count_occ ascii_dec (symbol (sextet v i) :: q) PAD
  = count_occ ascii_dec q PAD.
Proof.
  apply count_occ_cons_neq. apply symbol_facts, sextet_range.
Qed.

(** ** What the transform leaves alone *)

Lemma update_nth_other {A : Type} (a : list A) (n j : nat) (v : A) :
  n <> j -> nth_error (update a n v) j = nth_error a j.
Proof.
  revert n j. induction a as [| x a IH]; intros [| n] [| j] Hne;
    cbn [update nth_error]; try reflexivity; try congruence.
  apply IH. congruence.
Qed.

Lemma store_frame {A : Type} (a a' : list A) (i : Z) (v : A) :
  store a i v = Ok a' ->
  0 <= i /\ length a' = length a /\
  forall j, j <> Z.to_nat i -> nth_error a' j = nth_error a j.
Proof.
  unfold store. intros H.
  destruct (Z.leb_spec 0 i); cbn [andb] in H; [| discriminate].
  destruct (i <? Z.of_nat (length a)); [| discriminate].
  injection H as <-. split; [assumption |].
  split; [apply update_length |].
  intros j Hj. apply update_nth_other. congruence.
Qed.

Lemma bind_Ok {A B : Type} (m : result A) (k : A -> result B) (b : B) :
  bind m k = Ok b -> exists a, m = Ok a /\ k a = Ok b.
Proof.
  destruct m as [a | e]; cbn [bind]; [| discriminate].
  intros H. exists a. auto.
Qed.

(** Iteration 4 of stage 2 would shift by [6 * (size_t)(-1)]. *)
Lemma symbol_step_4 (buf : Z) (s : list ascii * Z) :
  symbol_step buf 4 s = Fault UndefinedBehaviour.
Proof. destruct s as [out msk]. reflexivity. Qed.

Lemma symbol_step_frame (buf i : Z) (s s' : list ascii * Z) :
  symbol_step buf i s = Ok s' ->
  0 <= i /\ length (fst s') = length (fst s) /\
  forall j, j <> Z.to_nat i -> nth_error (fst s') j = nth_error (fst s) j.
Proof.
  destruct s as [out msk]. unfold symbol_step. intros H.
  apply bind_Ok in H. destruct H as (idx & _ & H).
  apply bind_Ok in H. destruct H as (c & _ & H).
  apply bind_Ok in H. destruct H as (out1 & Hstore & H).
  apply bind_Ok in H. destruct H as (msk1 & _ & H).
  injection H as <-. cbn [fst]. apply (store_frame _ _ _ _ Hstore).
Qed.

(** Stage 2 stops before iteration 4 and writes below position 4 only. *)
Lemma symbol_loop_frame (buf : Z) (n : nat) :
  forall (i : Z) (s s' : list ascii * Z),
    0 <= i <= 4 ->
    for_loop n i (symbol_step buf) s = Ok s' ->
    i + Z.of_nat n <= 4 /\
    length (fst s') = length (fst s) /\
    forall j, (4 <= j)%nat -> nth_error (fst s') j = nth_error (fst s) j.
Proof.
  induction n as [| n IH]; intros i s s' Hi Hrun.
  - cbn [for_loop] in Hrun. injection Hrun as <-.
    split; [lia |]. split; reflexivity.
  - cbn [for_loop] in Hrun. apply bind_Ok in Hrun.
    destruct Hrun as (s1 & Hstep & Hrun).
    assert (Hi3 : i <= 3).
    { destruct (Z.eq_dec i 4) as [-> |]; [| lia].
      rewrite symbol_step_4 in Hstep. discriminate. }
    apply symbol_step_frame in Hstep. destruct Hstep as (_ & Hlen1 & Hnth1).
    apply IH in Hrun; [| lia]. destruct Hrun as (Hn & Hlen & Hnth).
    split; [lia |]. split; [congruence |].
    intros j Hj. rewrite Hnth by exact Hj. apply Hnth1. lia.
Qed.

Lemma pad_loop_frame (n : nat) :
  forall (i : Z) (out out' : list ascii),
    0 <= i -> i + Z.of_nat n <= 4 ->
    for_loop n i pad_step out = Ok out' ->
    length out' = length out /\
    forall j, (4 <= j)%nat -> nth_error out' j = nth_error out j.
Proof.
  induction n as [| n IH]; intros i out out' Hi Hn Hrun.
  - cbn [for_loop] in Hrun. injection Hrun as <-. split; reflexivity.
  - cbn [for_loop] in Hrun. apply bind_Ok in Hrun.
    destruct Hrun as (out1 & Hstep & Hrun).
    apply store_frame in Hstep. destruct Hstep as (_ & Hlen1 & Hnth1).
    apply IH in Hrun; [| lia | lia]. destruct Hrun as (Hlen & Hnth).
    split; [congruence |].
    intros j Hj. rewrite Hnth by exact Hj. apply Hnth1. lia.
Qed.

Lemma len_out_nonneg (len_in : Z) : 0 <= len_out_of len_in.
Proof.
  unfold len_out_of, SizeT.div, SizeT.add, SizeT.wrap.
  apply Z.div_pos; [| lia]. apply Z.mod_pos_bound. lia.
Qed.

Lemma block_frame (m m' : buffers) (len_in : Z) :
  base64_encode_block m len_in = Ok m' ->
  buf_in m' = buf_in m /\
  length (buf_out m') = length (buf_out m) /\
  forall j, (4 <= j)%nat -> nth_error (buf_out m') j = nth_error (buf_out m) j.
Proof.
  unfold base64_encode_block. intros H.
  apply bind_Ok in H. destruct H as (buf & _ & H).
  apply bind_Ok in H. destruct H as (msk & _ & H).
  apply bind_Ok in H. destruct H as ([out1 msk1] & Hsym & H).
  apply bind_Ok in H. destruct H as (out2 & Hpad & H).
  injection H as <-. cbn [buf_in buf_out].
  pose proof (len_out_nonneg len_in) as Hpos.
  unfold for_range in Hsym, Hpad.
  apply symbol_loop_frame in Hsym; [| lia].
  destruct Hsym as (Hn & Hlen1 & Hnth1). cbn [fst] in *.
  apply pad_loop_frame in Hpad; [| lia | lia].
  destruct Hpad as (Hlen2 & Hnth2).
  split; [reflexivity |]. split; [congruence |].
  intros j Hj. rewrite Hnth2, Hnth1 by exact Hj. reflexivity.
Qed.

(** ** The stream driver: what one read does *)

Lemma c_string_plain (q rest : list ascii) :
  Forall plain q -> c_string (q ++ NUL :: rest) = Ok q.
Proof.
  induction 1 as [| c q Hc Hq IH]; cbn [app c_string].
  - reflexivity.
  - destruct Hc as (_ & _ & Hnul).
    apply Ascii.eqb_neq in Hnul. rewrite Hnul, IH. reflexivity.
Qed.

Lemma line_loop_S (n : nat) (st : state) :
  line_loop (S n) st
  = if st_eof st then Ok st
    else
      let '(nread, buf_in1, f) := fread (buf_in (st_mem st)) 3 (st_in st) in
      let m := {| buf_out := buf_out (st_mem st); buf_in := buf_in1 |} in
      if nread =? 0 then
        if feof f then
          Ok {| st_in := f; st_out := st_out st; st_mem := m;
                st_eof := true |}
        else Fault AssertionFailed
      else
        m' <- base64_encode_block m nread ;;
        s <- c_string (buf_out m') ;;
        line_loop n
          {| st_in := f; st_out := st_out st ++ s; st_mem := m';
             st_eof := st_eof st |}.
Proof. reflexivity. Qed.

(** A read at the end of the stream: the loop is left with [eof] set and
    nothing written. *)
Lemma line_loop_stop (k : nat) (st : state) :
  st_eof st = false -> avail (st_in st) = [] ->
  read_fails (st_in st) = false \/ feof (st_in st) = true ->
  exists f,
    line_loop (S k) st
    = Ok {| st_in := f; st_out := st_out st; st_mem := st_mem st;
            st_eof := true |}
    /\ avail f = [].
Proof.
  intros He Hav Hend. rewrite line_loop_S, He.
  destruct st as [[bs ei rf] out [bo bi] e].
  cbn [st_in st_out st_mem st_eof buf_in buf_out] in *.
  unfold avail in Hav. unfold feof in Hend.
  cbn [eof_ind unread read_fails] in Hav, Hend. unfold fread.
  cbn [eof_ind unread read_fails].
  destruct ei.
  - cbn. eexists. split; reflexivity.
  - destruct Hend as [-> | Hend]; [| discriminate].
    subst bs. cbn. eexists. split; reflexivity.
Qed.

(** A read that meets an error where the bytes end: the count is 0, the
    indicator is clear and the assertion fails. *)
Lemma line_loop_abort (k : nat) (st : state) :
  st_eof st = false -> avail (st_in st) = [] ->
  read_fails (st_in st) = true -> feof (st_in st) = false ->
  line_loop (S k) st = Fault AssertionFailed.
Proof.
  intros He Hav Hrf Hfe. rewrite line_loop_S, He.
  destruct st as [[bs ei rf] out [bo bi] e].
  cbn [st_in st_out st_mem st_eof buf_in buf_out] in *.
  unfold avail in Hav. unfold feof in Hfe.
  cbn [eof_ind unread read_fails] in Hav, Hrf, Hfe. subst ei rf.
  subst bs. reflexivity.
Qed.

(** A read that delivers bytes: one block is encoded and its four
    characters are written. *)
Lemma line_loop_read (k : nat) (st : state) :
  st_eof st = false -> avail (st_in st) <> [] -> mem_ok (st_mem st) ->
  exists st',
    line_loop (S k) st = line_loop k st' /\
    st_eof st' = false /\
    st_out st' = st_out st ++ encode_bytes (firstn 3 (avail (st_in st))) /\
    avail (st_in st') = skipn 3 (avail (st_in st)) /\
    mem_ok (st_mem st') /\
    read_fails (st_in st') = read_fails (st_in st) /\
    (read_fails (st_in st) = true -> feof (st_in st') = false).
Proof.
  intros He Hav (Hin & Hnul).
  apply nth_error_split in Hnul. destruct Hnul as (q & rest & Hout & Hq).
  rewrite line_loop_S, He.
  destruct st as [[bs ei rf] out [bo bi] e].
  cbn [st_in st_out st_mem st_eof buf_in buf_out] in *.
  unfold avail, feof in *. cbn [eof_ind unread read_fails] in *. unfold fread.
  cbn [eof_ind unread read_fails].
  destruct ei; [congruence |].
  destruct bi as [| g0 [| g1 [| g2 [| g3 bi]]]]; try discriminate Hin.
  destruct q as [| o0 [| o1 [| o2 [| o3 [| o4 q]]]]]; try discriminate Hq.
  subst bo. cbn [app].
  destruct bs as [| a [| b [| c bs]]]; [congruence | | |];
    cbn [firstn skipn length app Nat.ltb Nat.leb Z.of_nat Pos.of_succ_nat
         Pos.succ Z.eqb];
    [ rewrite block_1 | rewrite block_2 | rewrite block_3 ];
    cbn [bind buf_out];
    rewrite c_string_plain by apply encode_bytes_plain;
    cbn [bind];
    (eexists; split; [reflexivity |]);
    cbn [st_in st_out st_mem st_eof buf_in buf_out eof_ind unread
         read_fails andb];
    repeat split; try reflexivity;
    try (destruct rf; reflexivity);
    try (intros ->; reflexivity).
Qed.

Lemma firstn_3_size (bs : list byte) :
  bs <> [] -> (1 <= length (firstn 3 bs) <= 3)%nat.
Proof.
  destruct bs as [| a [| b [| c rest]]]; cbn [firstn length]; intros H;
    [congruence | lia | lia | lia].
Qed.

(** A pass of at most [n] iterations writes at most [n] blocks of four
    characters each and keeps the terminating zero of [buf_out]. *)
Lemma line_loop_inv (n : nat) :
  forall st st',
    mem_ok (st_mem st) -> line_loop n st = Ok st' ->
    mem_ok (st_mem st') /\
    exists bl,
      st_out st' = st_out st ++ concat bl /\
      Forall is_quad bl /\
      (length bl <= n)%nat.
Proof.
  induction n as [| n IH]; intros st st' Hmem Hrun.
  - cbn [line_loop] in Hrun. injection Hrun as <-.
    split; [exact Hmem |]. exists []. cbn [concat length].
    rewrite app_nil_r. auto.
  - destruct (st_eof st) eqn:He.
    { rewrite line_loop_S, He in Hrun. injection Hrun as <-.
      split; [exact Hmem |]. exists []. cbn [concat length].
      rewrite app_nil_r. split; [reflexivity |]. split; [constructor | lia]. }
    destruct (avail (st_in st)) as [| a bs] eqn:Hav.
    + assert (Hend : read_fails (st_in st) = false \/ feof (st_in st) = true).
      { destruct (read_fails (st_in st)) eqn:Hrf; [| auto].
        destruct (feof (st_in st)) eqn:Hfe; [auto |].
        rewrite (line_loop_abort n st He Hav Hrf Hfe) in Hrun.
        discriminate. }
      destruct (line_loop_stop n st He Hav Hend) as (f & Hstop & _).
      rewrite Hstop in Hrun. injection Hrun as <-. cbn [st_mem st_out].
      split; [exact Hmem |]. exists []. cbn [concat length].
      rewrite app_nil_r. split; [reflexivity |]. split; [constructor | lia].
    + destruct (line_loop_read n st He)
        as (st1 & Hstep & _ & Hout1 & _ & Hmem1 & _);
        [rewrite Hav; discriminate | exact Hmem |].
      rewrite Hstep in Hrun.
      destruct (IH st1 st' Hmem1 Hrun) as (Hmem' & bl & Hout & Hquads & Hlen).
      split; [exact Hmem' |].
      exists (encode_bytes (firstn 3 (avail (st_in st))) :: bl).
      split; [| split].
      * rewrite Hout, Hout1. cbn [concat]. rewrite <- app_assoc. reflexivity.
      * constructor; [| exact Hquads].
        apply encode_bytes_quad, firstn_3_size. rewrite Hav. discriminate.
      * cbn [length]. lia.
Qed.

(** ** The stream driver: the whole run *)

Lemma render_0 (bl : list (list ascii)) :
  render 0 bl = [CR; LF] ++ render 19 bl.
Proof. destruct bl; reflexivity. Qed.

Lemma blocks_cons (bs : list byte) :
  bs <> [] -> blocks bs = firstn 3 bs :: blocks (skipn 3 bs).
Proof.
  destruct bs as [| a [| b [| c rest]]]; intros H; try reflexivity.
  congruence.
Qed.

Lemma blocks_length_le (bs : list byte) :
  (length (blocks bs) <= length bs)%nat.
Proof.
  assert (H : forall n bs, (length bs <= n)%nat ->
                           (length (blocks bs) <= length bs)%nat).
  { induction n as [| n IH]; intros l Hl.
    - destruct l; [auto | cbn [length] in Hl; lia].
    - destruct l as [| a [| b [| c rest]]]; cbn [blocks length] in *;
        try lia.
      specialize (IH rest). lia. }
  apply (H (length bs)). lia.
Qed.

Lemma while_loop_done (fuel : nat) (st : state) :
  st_eof st = true -> while_loop fuel st = Ok st.
Proof. intros He. destruct fuel; cbn [while_loop]; rewrite He; reflexivity. Qed.

Lemma while_loop_pass (fuel : nat) (st : state) :
  st_eof st = false ->
  while_loop (S fuel) st
  = (st1 <- line_loop 19 st ;; while_loop fuel (put_crlf st1)).
Proof. intros He. cbn [while_loop]. rewrite He. reflexivity. Qed.

Lemma rest_of_run_spec (n : nat) :
  forall (bs : list byte) (k fuel : nat) (st : state),
    (length bs <= n)%nat ->
    st_eof st = false -> avail (st_in st) = bs -> mem_ok (st_mem st) ->
    read_fails (st_in st) = false ->
    (length (blocks bs) < 19 * fuel + k)%nat ->
    exists st',
      rest_of_run k fuel st = Ok st' /\
      finished st st' (render k (map encode_bytes (blocks bs))).
Proof.
  induction n as [| n IH]; intros bs k fuel st Hn He Hav Hmem Hrf Hfuel.
  - (* no byte left *)
    destruct bs; [| cbn [length] in Hn; lia]. cbn [blocks map] in *.
    assert (Hstop : forall k' fuel' st0,
      st_eof st0 = false -> avail (st_in st0) = [] -> mem_ok (st_mem st0) ->
      read_fails (st_in st0) = false ->
      exists st', rest_of_run (S k') fuel' st0 = Ok st' /\
                  finished st0 st' [CR; LF]).
    { intros k' fuel' st0 He0 Hav0 Hmem0 Hrf0.
      destruct (line_loop_stop k' st0 He0 Hav0 (or_introl Hrf0))
        as (f & Hrun & Hf).
      rewrite Hrun. cbn [bind].
      rewrite while_loop_done by reflexivity.
      eexists. split; [reflexivity |].
      unfold finished. cbn [put_crlf st_in st_out st_mem st_eof].
      auto. }
    destruct k as [| k].
    + destruct fuel as [| fuel]; [cbn in Hfuel; lia |].
      cbn [line_loop bind].
      rewrite while_loop_pass by exact He.
      destruct (Hstop 18%nat fuel (put_crlf st)) as (st' & Hrun & Hfin);
        auto.
      exists st'. split; [exact Hrun |].
      destruct Hfin as (Hout & Hrest). split; [| exact Hrest].
      rewrite Hout. cbn [put_crlf st_out render]. rewrite <- app_assoc.
      reflexivity.
    + apply Hstop; auto.
  - destruct bs as [| a bs'] eqn:Hbs.
    { apply (IH [] k fuel st); cbn [length]; auto; lia. }
    rewrite <- Hbs in *.
    assert (Hne : bs <> []) by (subst bs; discriminate).
    assert (Hshort : (length (skipn 3 bs) <= n)%nat).
    { rewrite length_skipn. subst bs. cbn [length] in *. lia. }
    rewrite (blocks_cons bs Hne) in *. cbn [map length] in *.
    assert (Hread : forall k' fuel' st0,
      st_eof st0 = false -> avail (st_in st0) = bs -> mem_ok (st_mem st0) ->
      read_fails (st_in st0) = false ->
      (length (blocks (skipn 3 bs)) < 19 * fuel' + k')%nat ->
      exists st', rest_of_run (S k') fuel' st0 = Ok st' /\
                  finished st0 st'
                    (encode_bytes (firstn 3 bs)
                     ++ render k' (map encode_bytes (blocks (skipn 3 bs))))).
    { intros k' fuel' st0 He0 Hav0 Hmem0 Hrf0 Hfuel0.
      destruct (line_loop_read k' st0 He0)
        as (st1 & Hrun & He1 & Hout1 & Hav1 & Hmem1 & Hrf1 & _);
        [rewrite Hav0; exact Hne | exact Hmem0 |].
      rewrite Hav0 in Hout1, Hav1. rewrite Hrf0 in Hrf1.
      destruct (IH (skipn 3 bs) k' fuel' st1 Hshort He1 Hav1 Hmem1 Hrf1
                  Hfuel0)
        as (st' & Hrest & Hout & Hfin).
      exists st'. rewrite Hrun. split; [exact Hrest |].
      split; [| exact Hfin]. rewrite Hout, Hout1, <- app_assoc. reflexivity. }
    destruct k as [| k].
    + destruct fuel as [| fuel]; [cbn in Hfuel; lia |].
      cbn [line_loop bind].
      rewrite while_loop_pass by exact He.
      destruct (Hread 18%nat fuel (put_crlf st)) as (st' & Hrun & Hfin);
        auto; [lia |].
      exists st'. split; [exact Hrun |].
      destruct Hfin as (Hout & Hrest). split; [| exact Hrest].
      rewrite Hout. cbn [put_crlf st_out render]. rewrite <- !app_assoc.
      reflexivity.
    + apply Hread; auto. lia.
Qed.

(** The rest of a run on a stream whose bytes are followed by a read
    error: the blocks are read, and the read that finds none fails the
    assertion. *)
Lemma rest_of_run_abort (n : nat) :
  forall (bs : list byte) (k fuel : nat) (st : state),
    (length bs <= n)%nat ->
    st_eof st = false -> avail (st_in st) = bs -> mem_ok (st_mem st) ->
    read_fails (st_in st) = true -> feof (st_in st) = false ->
    (length (blocks bs) < 19 * fuel + k)%nat ->
    rest_of_run k fuel st = Fault AssertionFailed.
Proof.
  induction n as [| n IH]; intros bs k fuel st Hn He Hav Hmem Hrf Hfe Hfuel.
  - destruct bs; [| cbn [length] in Hn; lia]. cbn [blocks length] in Hfuel.
    destruct k as [| k].
    + destruct fuel as [| fuel]; [cbn in Hfuel; lia |].
      cbn [line_loop bind]. rewrite while_loop_pass by exact He.
      rewrite (line_loop_abort 18 (put_crlf st)); auto.
    + rewrite (line_loop_abort k st); auto.
  - destruct bs as [| a bs'] eqn:Hbs.
    { apply (IH [] k fuel st); cbn [length]; auto; lia. }
    rewrite <- Hbs in *.
    assert (Hne : bs <> []) by (subst bs; discriminate).
    assert (Hshort : (length (skipn 3 bs) <= n)%nat).
    { rewrite length_skipn. subst bs. cbn [length] in *. lia. }
    rewrite (blocks_cons bs Hne) in Hfuel. cbn [length] in Hfuel.
    assert (Hread : forall k' fuel' st0,
      st_eof st0 = false -> avail (st_in st0) = bs -> mem_ok (st_mem st0) ->
      read_fails (st_in st0) = true ->
      (length (blocks (skipn 3 bs)) < 19 * fuel' + k')%nat ->
      rest_of_run (S k') fuel' st0 = Fault AssertionFailed).
    { intros k' fuel' st0 He0 Hav0 Hmem0 Hrf0 Hfuel0.
      destruct (line_loop_read k' st0 He0)
        as (st1 & Hrun & He1 & _ & Hav1 & Hmem1 & Hrf1 & Hfe1);
        [rewrite Hav0; exact Hne | exact Hmem0 |].
      rewrite Hav0 in Hav1. rewrite Hrf0 in Hrf1. rewrite Hrun.
      apply (IH (skipn 3 bs)); auto. }
    destruct k as [| k].
    + destruct fuel as [| fuel]; [cbn in Hfuel; lia |].
      cbn [line_loop bind]. rewrite while_loop_pass by exact He.
      apply Hread; auto. lia.
    + apply Hread; auto. lia.
Qed.

Lemma init_state_mem_ok (g0 g1 g2 : byte) (f : FILE) :
  mem_ok (st_mem (init_state g0 g1 g2 f)).
Proof. split; reflexivity. Qed.

Lemma avail_clear (f : FILE) : feof f = false -> avail f = unread f.
Proof. unfold feof, avail. intros ->. reflexivity. Qed.

(** With enough fuel the driver returns, and what it has written is
    [encoded_text] of the bytes the stream held. *)
Lemma while_loop_spec (fuel : nat) (g0 g1 g2 : byte) (f : FILE) :
  feof f = false -> read_fails f = false ->
  (length (unread f) < fuel)%nat ->
  exists st,
    while_loop fuel (init_state g0 g1 g2 f) = Ok st /\
    st_out st = encoded_text (unread f) /\
    st_eof st = true /\
    mem_ok (st_mem st).
Proof.
  intros He Hrf Hfuel. destruct fuel as [| fuel]; [lia |].
  rewrite while_loop_pass by exact He.
  pose proof (blocks_length_le (unread f)) as Hle.
  destruct (rest_of_run_spec (length (unread f)) (unread f) 19 fuel
              (init_state g0 g1 g2 f))
    as (st & Hrun & Hout & Hdone & _ & Hmem).
  - lia.
  - exact He.
  - apply avail_clear. exact He.
  - apply init_state_mem_ok.
  - exact Hrf.
  - lia.
  - exists st. split; [exact Hrun |]. split; [exact Hout |].
    split; assumption.
Qed.

Lemma base64_encode_spec (g0 g1 g2 : byte) (f : FILE) :
  feof f = false -> read_fails f = false ->
  exists st,
    base64_encode g0 g1 g2 f = Ok st /\
    st_out st = encoded_text (unread f) /\
    st_eof st = true /\
    mem_ok (st_mem st).
Proof.
  intros He Hrf. apply while_loop_spec; [exact He | exact Hrf | lia].
Qed.

(** A stream whose indicator is already set is not read at all. *)
Lemma base64_encode_at_eof (g0 g1 g2 : byte) (f : FILE) :
  feof f = true ->
  base64_encode g0 g1 g2 f = Ok (init_state g0 g1 g2 f).
Proof.
  intros He. unfold base64_encode. apply while_loop_done. exact He.
Qed.

(** On a stream whose bytes are followed by a read error the run ends in
    the failing assertion, whatever the budget beyond the bytes. *)
Lemma while_loop_abort (fuel : nat) (g0 g1 g2 : byte) (f : FILE) :
  feof f = false -> read_fails f = true ->
  (length (unread f) < fuel)%nat ->
  while_loop fuel (init_state g0 g1 g2 f) = Fault AssertionFailed.
Proof.
  intros He Hrf Hfuel. destruct fuel as [| fuel]; [lia |].
  rewrite while_loop_pass by exact He.
  pose proof (blocks_length_le (unread f)) as Hle.
  apply (rest_of_run_abort (length (unread f)) (unread f)).
  - lia.
  - exact He.
  - apply avail_clear. exact He.
  - apply init_state_mem_ok.
  - exact Hrf.
  - exact He.
  - lia.
Qed.

Lemma base64_encode_abort (g0 g1 g2 : byte) (f : FILE) :
  feof f = false -> read_fails f = true ->
  base64_encode g0 g1 g2 f = Fault AssertionFailed.
Proof.
  intros He Hrf. apply while_loop_abort; [exact He | exact Hrf | lia].
Qed.

Lemma while_loop_more_fuel (fuel : nat) :
  forall (st r : state) (fuel' : nat),
    while_loop fuel st = Ok r -> (fuel <= fuel')%nat ->
    while_loop fuel' st = Ok r.
Proof.
  induction fuel as [| fuel IH]; intros st r fuel' Hrun Hle.
  - cbn [while_loop] in Hrun. destruct (st_eof st) eqn:He; [| discriminate].
    rewrite while_loop_done by exact He. exact Hrun.
  - destruct (st_eof st) eqn:He.
    + rewrite while_loop_done in * by exact He. exact Hrun.
    + destruct fuel' as [| fuel']; [lia |].
      rewrite while_loop_pass in * by exact He.
      destruct (line_loop 19 st) as [st1 | e]; [| discriminate].
      cbn [bind] in *. apply IH; [exact Hrun | lia].
Qed.

(** The iteration budget of [base64_encode] is enough: a run never ends
    for lack of it, and any larger budget gives the same result. *)
Lemma base64_encode_terminates (g0 g1 g2 : byte) (f : FILE) :
  base64_encode g0 g1 g2 f <> Fault OutOfFuel /\
  forall fuel, (length (unread f) < fuel)%nat ->
               while_loop fuel (init_state g0 g1 g2 f)
               = base64_encode g0 g1 g2 f.
Proof.
  destruct (feof f) eqn:He.
  - rewrite base64_encode_at_eof by exact He. split; [discriminate |].
    intros fuel _. apply while_loop_done. exact He.
  - destruct (read_fails f) eqn:Hrf.
    + rewrite base64_encode_abort by assumption. split; [discriminate |].
      intros fuel Hfuel. apply while_loop_abort; assumption.
    + destruct (base64_encode_spec g0 g1 g2 f He Hrf) as (st & Hst & _).
      rewrite Hst. split; [discriminate |].
      intros fuel Hfuel.
      apply (while_loop_more_fuel (S (length (unread f)))); [exact Hst | lia].
Qed.

(** Two runs on concrete inputs: the three bytes of "Man", and sixty bytes,
    whose twentieth block starts a second line. *)
Example encode_Man (g0 g1 g2 : byte) :
  exists st,
    base64_encode g0 g1 g2 (fopen [x4d; x61; x6e]) = Ok st /\
    st_out st = list_ascii_of_string "TWFu" ++ [CR; LF].
Proof. eexists. split; reflexivity. Qed.

Example encode_60_bytes :
  exists st,
    base64_encode x00 x00 x00 (fopen (repeat x4d 60)) = Ok st /\
    st_out st
    = concat (repeat (list_ascii_of_string "TU1N") 19) ++ [CR; LF]
      ++ list_ascii_of_string "TU1N" ++ [CR; LF].
Proof. eexists. split; vm_compute; reflexivity. Qed.

(** ** Properties of the text *)

Lemma blocks_sizes (bs : list byte) :
  Forall (fun b => (1 <= length b <= 3)%nat) (blocks bs).
Proof.
  assert (H : forall n l, (length l <= n)%nat ->
                          Forall (fun b => (1 <= length b <= 3)%nat) (blocks l)).
  { induction n as [| n IH]; intros l Hl.
    - destruct l; [constructor | cbn [length] in Hl; lia].
    - destruct l as [| a [| b [| c rest]]]; cbn [blocks];
        repeat constructor; cbn [length]; try lia.
      apply IH. cbn [length] in Hl. lia. }
  apply (H (length bs)). lia.
Qed.

(** An input of [3 * n] bytes is cut into [n] blocks. *)
Lemma blocks_exact (n : nat) :
  forall bs, length bs = (3 * n)%nat -> length (blocks bs) = n.
Proof.
  induction n as [| n IH]; intros bs Hlen.
  - destruct bs; [reflexivity | discriminate].
  - destruct bs as [| a [| b [| c rest]]]; cbn [length] in Hlen; try lia.
    cbn [blocks length]. f_equal. apply IH. lia.
Qed.

(** A pass that is given exactly the blocks it may still take writes them,
    its line break, and the line break of the pass that finds the end. *)
Lemma render_exact (k : nat) :
  forall bl, length bl = k ->
             render k bl = concat bl ++ [CR; LF] ++ [CR; LF].
Proof.
  induction k as [| k IH]; intros bl Hlen.
  - destruct bl; [reflexivity | discriminate].
  - destruct bl as [| b bl]; [discriminate |].
    cbn [render concat]. rewrite IH by (cbn [length] in Hlen; lia).
    rewrite <- app_assoc. reflexivity.
Qed.

(** A pass that is given fewer blocks writes them and one line break. *)
Lemma render_short (k : nat) :
  forall bl, (length bl < k)%nat -> render k bl = concat bl ++ [CR; LF].
Proof.
  induction k as [| k IH]; intros bl Hlen; [lia |].
  destruct bl as [| b bl]; [reflexivity |].
  cbn [render concat]. rewrite IH by (cbn [length] in Hlen; lia).
  rewrite <- app_assoc. reflexivity.
Qed.

Lemma encoded_blocks_length (bl : list (list byte)) :
  Forall (fun b => (1 <= length b <= 3)%nat) bl ->
  length (concat (map encode_bytes bl)) = (4 * length bl)%nat.
Proof.
  induction 1 as [| b bl Hb Hbl IH]; [reflexivity |].
  cbn [map concat length]. rewrite length_app, IH, encode_bytes_length by lia.
  lia.
Qed.

Lemma encoded_blocks_plain (bl : list (list byte)) :
  Forall plain (concat (map encode_bytes bl)).
Proof.
  induction bl as [| b bl IH]; cbn [map concat]; [constructor |].
  apply Forall_app. split; [apply encode_bytes_plain | exact IH].
Qed.

Lemma render_lines (bl : list (list ascii)) :
  forall k cur,
    concat cur ++ render k bl = concat (map line_text (lines_of k cur bl)).
Proof.
  induction bl as [| b rest IH]; intros k cur.
  - destruct k; cbn [render lines_of map concat line_text];
      rewrite ?app_nil_r, ?app_assoc; reflexivity.
  - destruct k as [| k]; cbn [render lines_of map concat].
    + rewrite <- IH. cbn [concat]. rewrite app_nil_r.
      unfold line_text. rewrite <- !app_assoc. reflexivity.
    + rewrite <- IH. rewrite concat_app. cbn [concat].
      rewrite app_nil_r, <- app_assoc. reflexivity.
Qed.

Lemma lines_shape (bl : list (list ascii)) :
  forall k cur,
    (length cur + k = 19)%nat ->
    Forall is_quad cur -> Forall is_quad bl ->
    exists full last,
      lines_of k cur bl = full ++ [last] /\
      Forall (fun line => length line = 19%nat /\ Forall is_quad line) full /\
      (length last < 19)%nat /\ Forall is_quad last.
Proof.
  induction bl as [| b rest IH]; intros k cur Hk Hcur Hbl.
  - destruct k as [| k]; cbn [lines_of].
    + exists [cur], []. repeat split; auto; cbn [length]; try lia.
      constructor; [| constructor]. split; [lia | exact Hcur].
    + exists [], cur. repeat split; auto. lia.
  - inversion Hbl as [| b' rest' Hb Hrest]; subst.
    destruct k as [| k]; cbn [lines_of].
    + destruct (IH 18%nat [b]) as (full & last & Heq & Hfull & Hlast);
        [reflexivity | constructor; [exact Hb | constructor] | exact Hrest |].
      exists (cur :: full), last. rewrite Heq. split; [reflexivity |].
      split; [| exact Hlast].
      constructor; [| exact Hfull]. split; [lia | exact Hcur].
    + apply IH; [rewrite length_app; cbn [length]; lia | | exact Hrest].
      apply Forall_app. split; [exact Hcur |].
      constructor; [exact Hb | constructor].
Qed.

(** ** Round trip *)

Example reference_decode_Man :
  reference_decode (list_ascii_of_string "TWFuTWE=")
  = Some [x4d; x61; x6e; x4d; x61].
Proof. reflexivity. Qed.

Example strip_crlf_example :
  strip_crlf (list_ascii_of_string "TWFu" ++ [CR; LF] ++
              list_ascii_of_string "TQ==" ++ [CR; LF])
  = list_ascii_of_string "TWFuTQ==".
Proof. reflexivity. Qed.

Lemma byte_of_u8 (z : Z) (b : byte) : z mod 256 = u8 b -> byte_of z = b.
Proof.
  intros H. unfold byte_of. rewrite H. unfold u8.
  rewrite N2Z.id, Byte.of_to_N. reflexivity.
Qed.

(** The four 6-bit groups of a 24-bit value give the value back. *)
Lemma sextets_recompose (v : Z) :
  0 <= v < 2 ^ 24 ->
  sextet v 0 * 2 ^ 18 + sextet v 1 * 2 ^ 12 + sextet v 2 * 2 ^ 6 + sextet v 3
  = v.
Proof.
  intros Hv. unfold sextet.
  change (18 - 6 * 0) with 18. change (18 - 6 * 1) with 12.
  change (18 - 6 * 2) with 6. change (18 - 6 * 3) with 0.
  change (2 ^ 18) with 262144. change (2 ^ 12) with 4096.
  change (2 ^ 6) with 64. change (2 ^ 0) with 1.
  change (2 ^ 24) with 16777216 in Hv.
  Z.div_mod_to_equations. lia.
Qed.

Lemma sextet_3_zero (x0 x1 : Z) : sextet (word24 x0 x1 0) 3 = 0.
Proof.
  unfold sextet, word24. change (18 - 6 * 3) with 0.
  change (2 ^ 0) with 1. change (2 ^ 16) with 65536. change (2 ^ 8) with 256.
  Z.div_mod_to_equations. lia.
Qed.

Lemma sextet_2_zero (x0 : Z) : sextet (word24 x0 0 0) 2 = 0.
Proof.
  unfold sextet, word24. change (18 - 6 * 2) with 6.
  change (2 ^ 6) with 64. change (2 ^ 16) with 65536. change (2 ^ 8) with 256.
  Z.div_mod_to_equations. lia.
Qed.

Lemma word24_bytes (x0 x1 x2 : Z) :
  0 <= x0 < 256 -> 0 <= x1 < 256 -> 0 <= x2 < 256 ->
  (word24 x0 x1 x2 / 2 ^ 16) mod 256 = x0 /\
  (word24 x0 x1 x2 / 2 ^ 8) mod 256 = x1 /\
  word24 x0 x1 x2 mod 256 = x2.
Proof.
  intros H0 H1 H2. unfold word24.
  change (2 ^ 16) with 65536. change (2 ^ 8) with 256.
  repeat split; Z.div_mod_to_equations; lia.
Qed.

Lemma strip_crlf_plain (q t : list ascii) :
  Forall plain q -> strip_crlf (q ++ t) = q ++ strip_crlf t.
Proof.
  induction 1 as [| c q Hc Hq IH]; [reflexivity |].
  cbn [app]. destruct Hc as (Hcr & _). apply Ascii.eqb_neq in Hcr.
  cbn [strip_crlf]. rewrite Hcr. cbn [andb].
  destruct (q ++ t) as [| d r] eqn:Heq.
  - apply app_eq_nil in Heq. destruct Heq as [-> ->]. reflexivity.
  - rewrite <- IH. reflexivity.
Qed.

Lemma strip_crlf_break (t : list ascii) :
  strip_crlf ([CR; LF] ++ t) = strip_crlf t.
Proof. reflexivity. Qed.

(** Stripping the line breaks of the text leaves the encoded blocks. *)
Lemma strip_render (bl : list (list ascii)) :
  Forall (Forall plain) bl ->
  forall k, strip_crlf (render k bl) = concat bl.
Proof.
  induction 1 as [| b bl Hb Hbl IH]; intros k.
  - destruct k; reflexivity.
  - destruct k as [| k]; cbn [render concat].
    + rewrite strip_crlf_break, strip_crlf_plain, IH by exact Hb.
      reflexivity.
    + rewrite strip_crlf_plain, IH by exact Hb. reflexivity.
Qed.

Lemma decode_symbol (v i : Z) :
  sextet_of (symbol (sextet v i)) = Some (sextet v i).
Proof. apply symbol_facts, sextet_range. Qed.

Lemma symbol_not_pad (v i : Z) : Ascii.eqb (symbol (sextet v i)) PAD = false.
Proof. apply Ascii.eqb_neq. apply symbol_facts, sextet_range. Qed.

Lemma reference_decode_quad (c0 c1 c2 c3 : ascii) (rest : list ascii) :
  reference_decode (c0 :: c1 :: c2 :: c3 :: rest)
  = match sextet_of c0, sextet_of c1 with
    | Some s0, Some s1 =>
        if Ascii.eqb c2 PAD then
          if Ascii.eqb c3 PAD then
            match rest with
            | [] => Some [byte_of ((s0 * 2 ^ 18 + s1 * 2 ^ 12) / 2 ^ 16)]
            | _ :: _ => None
            end
          else None
        else
          match sextet_of c2 with
          | None => None
          | Some s2 =>
              let v := s0 * 2 ^ 18 + s1 * 2 ^ 12 + s2 * 2 ^ 6 in
              if Ascii.eqb c3 PAD then
                match rest with
                | [] => Some [byte_of (v / 2 ^ 16); byte_of (v / 2 ^ 8)]
                | _ :: _ => None
                end
              else
                match sextet_of c3 with
                | None => None
                | Some s3 =>
                    match reference_decode rest with
                    | None => None
                    | Some bs =>
                        Some (byte_of ((v + s3) / 2 ^ 16)
                              :: byte_of ((v + s3) / 2 ^ 8)
                              :: byte_of (v + s3) :: bs)
                    end
                end
          end
    | _, _ => None
    end.
Proof. reflexivity. Qed.

Lemma decode_block_1 (a : byte) :
  reference_decode (encode_bytes [a]) = Some [a].
Proof.
  pose proof (u8_range a) as Ha.
  assert (Hv : 0 <= word24 (u8 a) 0 0 < 2 ^ 24) by (apply word24_range; lia).
  cbn [encode_bytes]. rewrite reference_decode_quad, !decode_symbol.
  change (Ascii.eqb PAD PAD) with true. cbv iota.
  pose proof (sextets_recompose _ Hv) as Hre.
  rewrite sextet_3_zero, sextet_2_zero in Hre.
  replace (sextet (word24 (u8 a) 0 0) 0 * 2 ^ 18
           + sextet (word24 (u8 a) 0 0) 1 * 2 ^ 12)
    with (word24 (u8 a) 0 0) by lia.
  do 2 f_equal. apply byte_of_u8. apply word24_bytes; lia.
Qed.

Lemma decode_block_2 (a b : byte) :
  reference_decode (encode_bytes [a; b]) = Some [a; b].
Proof.
  pose proof (u8_range a) as Ha. pose proof (u8_range b) as Hb.
  assert (Hv : 0 <= word24 (u8 a) (u8 b) 0 < 2 ^ 24)
    by (apply word24_range; lia).
  cbn [encode_bytes]. rewrite reference_decode_quad, !decode_symbol.
  rewrite symbol_not_pad. change (Ascii.eqb PAD PAD) with true.
  cbv iota zeta.
  pose proof (sextets_recompose _ Hv) as Hre.
  rewrite sextet_3_zero in Hre.
  replace (sextet (word24 (u8 a) (u8 b) 0) 0 * 2 ^ 18
           + sextet (word24 (u8 a) (u8 b) 0) 1 * 2 ^ 12
           + sextet (word24 (u8 a) (u8 b) 0) 2 * 2 ^ 6)
    with (word24 (u8 a) (u8 b) 0) by lia.
  destruct (word24_bytes (u8 a) (u8 b) 0) as (H0 & H1 & _); try lia.
  rewrite (byte_of_u8 _ a H0), (byte_of_u8 _ b H1). reflexivity.
Qed.

Lemma decode_block_3 (a b c : byte) (rest : list ascii) (bs : list byte) :
  reference_decode rest = Some bs ->
  reference_decode (encode_bytes [a; b; c] ++ rest) = Some (a :: b :: c :: bs).
Proof.
  intros Hrest.
  pose proof (u8_range a) as Ha. pose proof (u8_range b) as Hb.
  pose proof (u8_range c) as Hc.
  assert (Hv : 0 <= word24 (u8 a) (u8 b) (u8 c) < 2 ^ 24)
    by (apply word24_range; lia).
  cbn [encode_bytes app]. rewrite reference_decode_quad, !decode_symbol.
  rewrite !symbol_not_pad, Hrest. cbv iota zeta.
  rewrite (sextets_recompose _ Hv).
  destruct (word24_bytes (u8 a) (u8 b) (u8 c)) as (H0 & H1 & H2); try lia.
  rewrite (byte_of_u8 _ a H0), (byte_of_u8 _ b H1), (byte_of_u8 _ c H2).
  reflexivity.
Qed.

(** Decoding the encoded blocks of a byte sequence gives it back. *)
Lemma decode_encoded (bs : list byte) :
  reference_decode (concat (map encode_bytes (blocks bs))) = Some bs.
Proof.
  assert (H : forall n l, (length l <= n)%nat ->
    reference_decode (concat (map encode_bytes (blocks l))) = Some l).
  { induction n as [| n IH]; intros l Hl.
    - destruct l; [reflexivity | cbn [length] in Hl; lia].
    - destruct l as [| a [| b [| c rest]]].
      + reflexivity.
      + cbn [blocks map concat]. rewrite app_nil_r. apply decode_block_1.
      + cbn [blocks map concat]. rewrite app_nil_r. apply decode_block_2.
      + cbn [blocks map concat]. apply decode_block_3.
        apply IH. cbn [length] in Hl. lia. }
  apply (H (length bs)). lia.
Qed.

(** ** One pass, and the state of stage 2 at an iteration *)

Lemma lines_concat (bl : list (list ascii)) :
  forall k cur, concat (lines_of k cur bl) = cur ++ bl.
Proof.
  induction bl as [| b rest IH]; intros k cur.
  - destruct k; cbn [lines_of concat]; rewrite ?app_nil_r; reflexivity.
  - destruct k as [| k]; cbn [lines_of concat].
    + rewrite IH. reflexivity.
    + rewrite IH, <- app_assoc. reflexivity.
Qed.

(** A pass of [k] iterations on a stream that reads to its end: the next
    [k] blocks are encoded and written, fewer when the input ends first,
    and [eof] is set exactly in that case. *)
Lemma line_loop_pass (k : nat) :
  forall st,
    st_eof st = false -> mem_ok (st_mem st) ->
    read_fails (st_in st) = false ->
    exists st',
      line_loop k st = Ok st' /\
      st_out st'
      = st_out st
        ++ concat (map encode_bytes (firstn k (blocks (avail (st_in st))))) /\
      avail (st_in st') = skipn (3 * k) (avail (st_in st)) /\
      st_eof st' = negb (k <=? length (blocks (avail (st_in st))))%nat /\
      mem_ok (st_mem st').
Proof.
  induction k as [| k IH]; intros st He Hmem Hrf.
  - exists st. cbn [line_loop firstn map concat skipn Nat.mul Nat.leb negb].
    rewrite app_nil_r. auto.
  - destruct (avail (st_in st)) as [| a bs'] eqn:Hav.
    + destruct (line_loop_stop k st He Hav (or_introl Hrf))
        as (f & Hrun & Hf).
      eexists. split; [exact Hrun |].
      cbn [st_out st_in st_eof st_mem blocks firstn map concat length
           Nat.leb negb].
      rewrite app_nil_r, skipn_nil. auto.
    + rewrite <- Hav.
      assert (Hne : avail (st_in st) <> []) by (rewrite Hav; discriminate).
      destruct (line_loop_read k st He Hne Hmem)
        as (st1 & Hrun & He1 & Hout1 & Hav1 & Hmem1 & Hrf1 & _).
      rewrite Hrf in Hrf1.
      destruct (IH st1 He1 Hmem1 Hrf1) as (st' & Hrun' & Hout & Hav' & He' & Hm').
      exists st'. rewrite Hrun. split; [exact Hrun' |].
      rewrite (blocks_cons _ Hne). cbn [firstn map concat length].
      rewrite Hav1 in Hout, Hav', He'.
      split; [rewrite Hout, Hout1, <- app_assoc; reflexivity |].
      split; [| split; [exact He' | exact Hm']].
      rewrite Hav', skipn_skipn. f_equal. lia.
Qed.

(** The state of the loop of stage 2 when iteration [i] starts: the mask
    has been shifted [i] times. *)
Lemma symbol_loop_prefix (buf i : Z) (out : list ascii) :
  0 <= i <= 3 -> (4 <= length out)%nat ->
  exists out_i,
    for_range 0 i (symbol_step buf) (out, msk_at 0) = Ok (out_i, msk_at i) /\
    length out_i = length out.
Proof.
  intros Hi Hlen.
  destruct out as [| o0 [| o1 [| o2 [| o3 rest]]]]; cbn [length] in Hlen;
    try lia.
  unfold for_range.
  assert (Hc : i = 0 \/ i = 1 \/ i = 2 \/ i = 3) by lia.
  destruct Hc as [-> | [-> | [-> | ->]]].
  - change (Z.to_nat (0 - 0)) with 0%nat. cbn [for_loop].
    eexists. split; reflexivity.
  - change (Z.to_nat (1 - 0)) with 1%nat. cbn [for_loop].
    step_symbol. fold_indices.
    eexists. split; [reflexivity |]. rewrite !update_length. reflexivity.
  - change (Z.to_nat (2 - 0)) with 2%nat. cbn [for_loop].
    step_symbol. fold_indices. step_symbol. fold_indices.
    eexists. split; [reflexivity |]. rewrite !update_length. reflexivity.
  - change (Z.to_nat (3 - 0)) with 3%nat. cbn [for_loop].
    step_symbol. fold_indices. step_symbol. fold_indices.
    step_symbol. fold_indices.
    eexists. split; [reflexivity |]. rewrite !update_length. reflexivity.
Qed.

Lemma msk_shift (i : Z) :
  0 <= i <= 3 -> msk_at (i + 1) = Z.shiftr (msk_at i) 6.
Proof.
  intros Hi. pose proof (msk_step i Hi) as H.
  assert (Hs : U32.shr (msk_at i) 6 = Ok (Z.shiftr (msk_at i) 6))
    by reflexivity.
  rewrite Hs in H. injection H as H. symmetry. exact H.
Qed.

(** * The properties of the specification *)

(** C1, as stated, fails: for the 57-byte input [input57] the text is not 76
    characters followed by one CRLF and nothing else. *)
Lemma C1_counterexample :
  ~ exists st body,
      base64_encode x00 x00 x00 (fopen input57) = Ok st /\
      st_out st = body ++ [CR; LF] /\
      length body = 76%nat.
Proof.
  intros (st & body & Hrun & Hout & Hlen).
  assert (Hst : exists st0, base64_encode x00 x00 x00 (fopen input57) = Ok st0
                            /\ length (st_out st0) = 80%nat).
  { eexists. split; [vm_compute; reflexivity | reflexivity]. }
  destruct Hst as (st0 & Hrun0 & Hlen0).
  rewrite Hrun in Hrun0. injection Hrun0 as <-.
  rewrite Hout, length_app, Hlen in Hlen0. cbn [length] in Hlen0. lia.
Qed.

(** C1, amended.  For every input stream of exactly 57 bytes the driver
    writes 76 characters, none of them part of a line break, then a CRLF,
    and then the CRLF of the pass that finds the end of the input: two CRLF
    in all. *)
Theorem C1_57_bytes_two_crlf (bs : list byte) (g0 g1 g2 : byte) :
  length bs = 57%nat ->
  exists st body,
    base64_encode g0 g1 g2 (fopen bs) = Ok st /\
    st_out st = body ++ [CR; LF] ++ [CR; LF] /\
    length body = 76%nat /\
    Forall plain body.
Proof.
  intros Hlen.
  destruct (base64_encode_spec g0 g1 g2 (fopen bs) eq_refl eq_refl)
    as (st & Hrun & Hout & _).
  exists st, (concat (map encode_bytes (blocks bs))).
  split; [exact Hrun |]. cbn [fopen unread] in Hout.
  assert (Hn : length (blocks bs) = 19%nat) by (apply blocks_exact; lia).
  repeat split.
  - rewrite Hout. unfold encoded_text. apply render_exact.
    rewrite length_map. exact Hn.
  - rewrite encoded_blocks_length by apply blocks_sizes. lia.
  - apply encoded_blocks_plain.
Qed.

Lemma C1_57_bytes_two_crlf_witness :
  length input57 = 57%nat /\
  exists st body,
    base64_encode x00 x00 x00 (fopen input57) = Ok st /\
    st_out st = body ++ [CR; LF] ++ [CR; LF] /\
    length body = 76%nat /\
    Forall plain body.
Proof.
  split; [reflexivity |].
  apply (C1_57_bytes_two_crlf input57 x00 x00 x00). reflexivity.
Defined.

(** C2.  For a block of 1 to 3 bytes the transform writes exactly four
    characters and leaves the rest of the output array alone: the first
    [len_out = ceil(8*len_in/6)] (2, 3 or 4) are entries of the 64-symbol
    table and are not the padding character, the remaining [4 - len_out]
    are the padding character. *)
Theorem C2_block_four_characters (m : buffers) (len_in : Z) :
  1 <= len_in <= 3 ->
  len_in <= Z.of_nat (length (buf_in m)) ->
  (4 <= length (buf_out m))%nat ->
  exists q,
    base64_encode_block m len_in
    = Ok {| buf_out := q ++ skipn 4 (buf_out m); buf_in := buf_in m |} /\
    length q = 4%nat /\
    len_out_of len_in = len_in + 1 /\
    6 * (len_out_of len_in - 1) < 8 * len_in <= 6 * len_out_of len_in /\
    (forall i, (i < Z.to_nat (len_out_of len_in))%nat ->
       nth i q NUL <> PAD /\
       exists k, 0 <= k <= 63 /\ load base64_table k = Ok (nth i q NUL)) /\
    (forall i, (Z.to_nat (len_out_of len_in) <= i < 4)%nat ->
       nth i q NUL = PAD) /\
    count_occ ascii_dec q PAD = Z.to_nat (4 - len_out_of len_in).
Proof.
  intros Hlen Hin Hout.
  exists (encode_bytes (firstn (Z.to_nat len_in) (buf_in m))).
  split; [apply block_spec; assumption |].
  destruct m as [out inb]. cbn [buf_in buf_out] in *.
  destruct (len_out_cases len_in Hlen) as [[-> ->] | [[-> ->] | [-> ->]]].
  - destruct inb as [| b0 l]; cbn [length] in Hin; [lia |].
    change (Z.to_nat 1) with 1%nat. change (Z.to_nat 2) with 2%nat.
    change (Z.to_nat (4 - 2)) with 2%nat.
    cbn [firstn encode_bytes].
    repeat split; try lia.
    + destruct i as [| [| i]]; try lia; cbn [nth];
        apply symbol_facts, sextet_range.
    + destruct i as [| [| i]]; try lia; cbn [nth];
        match goal with
        | |- exists k, _ /\ load _ k = Ok (symbol (sextet ?v ?j)) =>
            destruct (symbol_from_table v j) as (k & Hk & Hload & _);
            exists k; auto
        end.
    + destruct i as [| [| [| [| i]]]]; try lia; reflexivity.
    + rewrite !count_pad_symbol. reflexivity.
  - destruct inb as [| b0 [| b1 l]]; cbn [length] in Hin; try lia.
    change (Z.to_nat 2) with 2%nat. change (Z.to_nat 3) with 3%nat.
    change (Z.to_nat (4 - 3)) with 1%nat.
    cbn [firstn encode_bytes].
    repeat split; try lia.
    + destruct i as [| [| [| i]]]; try lia; cbn [nth];
        apply symbol_facts, sextet_range.
    + destruct i as [| [| [| i]]]; try lia; cbn [nth];
        match goal with
        | |- exists k, _ /\ load _ k = Ok (symbol (sextet ?v ?j)) =>
            destruct (symbol_from_table v j) as (k & Hk & Hload & _);
            exists k; auto
        end.
    + destruct i as [| [| [| [| i]]]]; try lia; reflexivity.
    + rewrite !count_pad_symbol. reflexivity.
  - destruct inb as [| b0 [| b1 [| b2 l]]]; cbn [length] in Hin; try lia.
    change (Z.to_nat 3) with 3%nat. change (Z.to_nat 4) with 4%nat.
    change (Z.to_nat (4 - 4)) with 0%nat.
    cbn [firstn encode_bytes].
    repeat split; try lia.
    + destruct i as [| [| [| [| i]]]]; try lia; cbn [nth];
        apply symbol_facts, sextet_range.
    + destruct i as [| [| [| [| i]]]]; try lia; cbn [nth];
        match goal with
        | |- exists k, _ /\ load _ k = Ok (symbol (sextet ?v ?j)) =>
            destruct (symbol_from_table v j) as (k & Hk & Hload & _);
            exists k; auto
        end.
    + rewrite !count_pad_symbol. reflexivity.
Qed.

Lemma C2_block_four_characters_witness :
  let m := {| buf_out := [NUL; NUL; NUL; NUL; NUL];
              buf_in := [x4d; x61; x00] |} in
  (1 <= 2 <= 3 /\ 2 <= Z.of_nat (length (buf_in m)) /\
   (4 <= length (buf_out m))%nat) /\
  exists q,
    base64_encode_block m 2
    = Ok {| buf_out := q ++ [NUL]; buf_in := [x4d; x61; x00] |} /\
    length q = 4%nat /\
    len_out_of 2 = 3 /\
    count_occ ascii_dec q PAD = 1%nat.
Proof.
  cbv zeta. cbn [buf_in buf_out length].
  split; [lia |].
  destruct (C2_block_four_characters
              {| buf_out := [NUL; NUL; NUL; NUL; NUL];
                 buf_in := [x4d; x61; x00] |} 2)
    as (q & Hrun & Hlen & Hout & _ & _ & _ & Hpad).
  - lia.
  - cbn [buf_in length]. lia.
  - cbn [buf_out length]. lia.
  - exists q. repeat split; assumption.
Defined.

(** C3.  For every byte sequence, stripping the CRLF pairs from the text
    the driver writes and decoding the rest with the reference decoder
    gives the byte sequence back. *)
Theorem C3_round_trip (bs : list byte) (g0 g1 g2 : byte) :
  exists st,
    base64_encode g0 g1 g2 (fopen bs) = Ok st /\
    reference_decode (strip_crlf (st_out st)) = Some bs.
Proof.
  destruct (base64_encode_spec g0 g1 g2 (fopen bs) eq_refl eq_refl)
    as (st & Hrun & Hout & _).
  exists st. split; [exact Hrun |].
  rewrite Hout. unfold encoded_text. cbn [fopen unread].
  rewrite strip_render.
  - apply decode_encoded.
  - apply Forall_map. apply Forall_forall. intros b _.
    apply encode_bytes_plain.
Qed.



(** C5.  The text is a sequence of lines, each closed by a CRLF, and the
    blocks of the lines, in order, are the encodings of the blocks of the
    input, each the four characters the transform writes for its block:
    every line but the last holds exactly 19 of them (76 characters, none
    of them CR or LF), the last holds fewer than 19, so a CRLF follows
    every 19th encoded block and no line ever holds more than 19.  One pass
    of the inner loop, which counts the blocks of a line from 0, writes the
    encodings of the next 19 blocks of the input and leaves [eof] clear, so
    that the CRLF follows and a new count starts, or writes the fewer
    blocks that are left and sets [eof]; no pass writes more than 19. *)
Theorem C5_line_break_every_19_blocks (bs : list byte) (g0 g1 g2 : byte) :
  (exists st full last,
     base64_encode g0 g1 g2 (fopen bs) = Ok st /\
     st_out st = concat (map line_text (full ++ [last])) /\
     concat (full ++ [last]) = map encode_bytes (blocks bs) /\
     Forall (fun line => length line = 19%nat /\ Forall is_quad line) full /\
     (length last < 19)%nat /\ Forall is_quad last) /\
  Forall
    (fun b =>
       forall out stale, (4 <= length out)%nat ->
         base64_encode_block {| buf_out := out; buf_in := b ++ stale |}
           (Z.of_nat (length b))
         = Ok {| buf_out := encode_bytes b ++ skipn 4 out;
                 buf_in := b ++ stale |})
    (blocks bs) /\
  (forall st,
     st_eof st = false -> mem_ok (st_mem st) ->
     read_fails (st_in st) = false ->
     exists st',
       line_loop 19 st = Ok st' /\
       st_out st'
       = st_out st
         ++ concat (map encode_bytes
                      (firstn 19 (blocks (avail (st_in st))))) /\
       avail (st_in st') = skipn 57 (avail (st_in st)) /\
       st_eof st' = negb (19 <=? length (blocks (avail (st_in st))))%nat /\
       forall fuel, while_loop (S fuel) st = while_loop fuel (put_crlf st')) /\
  (forall st st',
     mem_ok (st_mem st) -> line_loop 19 st = Ok st' ->
     exists bl,
       st_out st' = st_out st ++ concat bl /\
       Forall is_quad bl /\ (length bl <= 19)%nat).
Proof.
  split; [| split; [| split]].
  - destruct (base64_encode_spec g0 g1 g2 (fopen bs) eq_refl eq_refl)
      as (st & Hrun & Hout & _).
    destruct (lines_shape (map encode_bytes (blocks bs)) 19 [])
      as (full & last & Heq & Hfull & Hlast).
    + reflexivity.
    + constructor.
    + apply Forall_map. eapply Forall_impl; [| apply blocks_sizes].
      intros b Hb. apply encode_bytes_quad. exact Hb.
    + exists st, full, last. split; [exact Hrun |].
      split; [| split; [| split; [exact Hfull | exact Hlast]]].
      * rewrite Hout, <- Heq, <- render_lines. reflexivity.
      * rewrite <- Heq, lines_concat. reflexivity.
  - eapply Forall_impl; [| apply blocks_sizes].
    intros b Hb out stale Hlen. cbv beta in Hb.
    rewrite block_spec.
    + cbn [buf_in buf_out]. rewrite Nat2Z.id, firstn_app, firstn_all.
      rewrite Nat.sub_diag. cbn [firstn]. rewrite app_nil_r. reflexivity.
    + lia.
    + cbn [buf_in]. rewrite length_app. lia.
    + exact Hlen.
  - intros st He Hmem Hrf.
    destruct (line_loop_pass 19 st He Hmem Hrf)
      as (st' & Hrun & Hout & Hav & He' & _).
    exists st'. split; [exact Hrun |]. split; [exact Hout |].
    split; [exact Hav |]. split; [exact He' |].
    intros fuel. rewrite while_loop_pass by exact He. rewrite Hrun.
    reflexivity.
  - intros st st' Hmem Hrun.
    apply (line_loop_inv 19 st st' Hmem Hrun).
Qed.

(** C6.  For an empty input stream the driver raises no error and writes
    exactly one CRLF and no encoded symbol, whatever [buf_in] held. *)
Theorem C6_empty_input_one_crlf (g0 g1 g2 : byte) :
  exists st,
    base64_encode g0 g1 g2 (fopen []) = Ok st /\ st_out st = [CR; LF].
Proof.
  eexists. split; reflexivity.
Qed.

(** C7.  The concrete vectors of the block transform: "Man" gives "TWFu",
    "Ma" gives "TWE=" and "M" gives "TQ==", for every previous content of
    the output array and of the input bytes beyond the block. *)
Theorem C7_concrete_vectors (o0 o1 o2 o3 : ascii) (rest : list ascii)
  (l : list byte) :
  base64_encode_block
    {| buf_out := o0 :: o1 :: o2 :: o3 :: rest;
       buf_in := x4d :: x61 :: x6e :: l |} 3
  = Ok {| buf_out := list_ascii_of_string "TWFu" ++ rest;
          buf_in := x4d :: x61 :: x6e :: l |}
  /\
  base64_encode_block
    {| buf_out := o0 :: o1 :: o2 :: o3 :: rest; buf_in := x4d :: x61 :: l |} 2
  = Ok {| buf_out := list_ascii_of_string "TWE=" ++ rest;
          buf_in := x4d :: x61 :: l |}
  /\
  base64_encode_block
    {| buf_out := o0 :: o1 :: o2 :: o3 :: rest; buf_in := x4d :: l |} 1
  = Ok {| buf_out := list_ascii_of_string "TQ==" ++ rest;
          buf_in := x4d :: l |}.
Proof.
  rewrite block_3, block_2, block_1. repeat split; reflexivity.
Qed.

(** C8.  Encoding is deterministic: two runs on the same byte sequence write
    the same text, although the bytes [buf_in] holds before the first read
    (an uninitialised array) may differ between the runs. *)
Theorem C8_deterministic (bs : list byte) (g0 g1 g2 h0 h1 h2 : byte) :
  exists st st',
    base64_encode g0 g1 g2 (fopen bs) = Ok st /\
    base64_encode h0 h1 h2 (fopen bs) = Ok st' /\
    st_out st = st_out st'.
Proof.
  destruct (base64_encode_spec g0 g1 g2 (fopen bs) eq_refl eq_refl)
    as (st & Hrun & Hout & _).
  destruct (base64_encode_spec h0 h1 h2 (fopen bs) eq_refl eq_refl)
    as (st' & Hrun' & Hout' & _).
  exists st, st'. repeat split; try assumption. congruence.
Qed.

(** C9.  For a block of 1 to 3 bytes every table index the transform
    computes is at most 63: when iteration [i] of stage 2 starts, for [i]
    below [len_out], the loop holds the initial mask shifted [i] times, the
    index [(buf & msk) >> (6*(4-i-1))] it computes from that mask lies in
    0..63, the lookup succeeds without reaching the end of the table, the
    iteration stores the character found and shifts the mask once more, and
    the transform returns with that character at position [i]. *)
Theorem C9_table_index_in_bounds (m : buffers) (len_in : Z) :
  1 <= len_in <= 3 ->
  len_in <= Z.of_nat (length (buf_in m)) ->
  (4 <= length (buf_out m))%nat ->
  exists buf msk0 m',
    pack (buf_in m) len_in = Ok buf /\
    msk_init = Ok msk0 /\
    base64_encode_block m len_in = Ok m' /\
    forall i, 0 <= i < len_out_of len_in ->
      exists out_i msk_i idx c,
        for_range 0 i (symbol_step buf) (buf_out m, msk0)
        = Ok (out_i, msk_i) /\
        sym_index buf msk_i i = Ok idx /\
        0 <= idx <= 63 /\
        idx < Z.of_nat (length base64_table) /\
        load base64_table idx = Ok c /\
        c <> NUL /\
        symbol_step buf i (out_i, msk_i)
        = Ok (update out_i (Z.to_nat i) c, Z.shiftr msk_i 6) /\
        nth_error (buf_out m') (Z.to_nat i) = Some c.
Proof.
  intros Hlen Hin Hout.
  destruct (block_symbols m len_in Hlen Hin Hout) as (m' & Hrun & Hsym).
  eexists. exists (msk_at 0), m'.
  split; [apply pack_spec; assumption |].
  split; [reflexivity |]. split; [exact Hrun |].
  intros i Hi.
  assert (Hi3 : 0 <= i <= 3).
  { destruct (len_out_cases len_in Hlen) as [[_ He] | [[_ He] | [_ He]]];
      rewrite He in Hi; lia. }
  match goal with |- context [symbol_step ?b] => set (buf := b) end.
  destruct (symbol_loop_prefix buf i (buf_out m) Hi3 Hout)
    as (out_i & Hpre & Hleni).
  pose proof (sextet_range buf i) as Hr.
  exists out_i, (msk_at i), (sextet buf i), (symbol (sextet buf i)).
  split; [exact Hpre |].
  split; [apply sym_index_at; exact Hi3 |].
  split; [exact Hr |].
  split; [change (length base64_table) with 65%nat; lia |].
  split; [apply load_table; exact Hr |].
  split; [apply symbol_facts; exact Hr |].
  split; [| apply Hsym; exact Hi].
  rewrite symbol_step_at by (rewrite ?Hleni; lia).
  rewrite msk_shift by exact Hi3. reflexivity.
Qed.

Lemma C9_table_index_in_bounds_witness :
  let m := {| buf_out := [NUL; NUL; NUL; NUL; NUL];
              buf_in := [xff; xff; xff] |} in
  (1 <= 3 <= 3 /\ 3 <= Z.of_nat (length (buf_in m)) /\
   (4 <= length (buf_out m))%nat) /\
  exists buf msk0 m',
    pack (buf_in m) 3 = Ok buf /\
    msk_init = Ok msk0 /\
    base64_encode_block m 3 = Ok m' /\
    forall i, 0 <= i < len_out_of 3 ->
      exists out_i msk_i idx c,
        for_range 0 i (symbol_step buf) (buf_out m, msk0)
        = Ok (out_i, msk_i) /\
        sym_index buf msk_i i = Ok idx /\
        0 <= idx <= 63 /\
        idx < Z.of_nat (length base64_table) /\
        load base64_table idx = Ok c /\
        c <> NUL /\
        symbol_step buf i (out_i, msk_i)
        = Ok (update out_i (Z.to_nat i) c, Z.shiftr msk_i 6) /\
        nth_error (buf_out m') (Z.to_nat i) = Some c.
Proof.
  cbv zeta. cbn [buf_in buf_out length]. split; [lia |].
  apply (C9_table_index_in_bounds
           {| buf_out := [NUL; NUL; NUL; NUL; NUL];
              buf_in := [xff; xff; xff] |} 3).
  - lia.
  - cbn [buf_in length]. lia.
  - cbn [buf_out length]. lia.
Defined.

(** C10.  The transform writes only positions 0 to 3 of the output array
    and leaves the input array as it is; so in the driver each pass keeps
    the zero at [buf_out[4]] and every block adds exactly four characters
    to the text written. *)
Theorem C10_block_frame :
  (forall m len_in m',
     base64_encode_block m len_in = Ok m' ->
     buf_in m' = buf_in m /\
     length (buf_out m') = length (buf_out m) /\
     forall j, (4 <= j)%nat ->
               nth_error (buf_out m') j = nth_error (buf_out m) j) /\
  (forall n st st',
     mem_ok (st_mem st) -> line_loop n st = Ok st' ->
     nth_error (buf_out (st_mem st')) 4 = Some NUL /\
     exists bl,
       st_out st' = st_out st ++ concat bl /\
       Forall (fun q => length q = 4%nat) bl) /\
  (forall g0 g1 g2 bs,
     exists st,
       base64_encode g0 g1 g2 (fopen bs) = Ok st /\
       nth_error (buf_out (st_mem st)) 4 = Some NUL /\
       st_out st = render 19 (map encode_bytes (blocks bs)) /\
       Forall (fun q => length q = 4%nat) (map encode_bytes (blocks bs))).
Proof.
  split; [| split].
  - intros m len_in m' Hrun. apply (block_frame m m' len_in Hrun).
  - intros n st st' Hmem Hrun.
    destruct (line_loop_inv n st st' Hmem Hrun)
      as ((_ & Hnul) & bl & Hout & Hquads & _).
    split; [exact Hnul |]. exists bl. split; [exact Hout |].
    eapply Forall_impl; [| exact Hquads]. intros q Hq. apply Hq.
  - intros g0 g1 g2 bs.
    destruct (base64_encode_spec g0 g1 g2 (fopen bs) eq_refl eq_refl)
      as (st & Hrun & Hout & _ & _ & Hnul).
    exists st. repeat split; try assumption.
    apply Forall_map. eapply Forall_impl; [| apply blocks_sizes].
    intros b Hb. apply encode_bytes_length. exact Hb.
Qed.

Lemma C10_block_frame_witness :
  let m := {| buf_out := [NUL; NUL; NUL; NUL; NUL];
              buf_in := [x4d; x61; x6e] |} in
  exists m',
    base64_encode_block m 3 = Ok m' /\
    buf_in m' = buf_in m /\
    length (buf_out m') = length (buf_out m) /\
    nth_error (buf_out m') 4 = Some NUL.
Proof.
  cbv zeta. eexists. split; [reflexivity |].
  destruct C10_block_frame as (Hframe & _).
  destruct (Hframe
              {| buf_out := [NUL; NUL; NUL; NUL; NUL];
                 buf_in := [x4d; x61; x6e] |} 3 _ eq_refl)
    as (Hin & Hlen & Hnth).
  split; [exact Hin |]. split; [exact Hlen |].
  rewrite Hnth by lia. reflexivity.
Defined.

(** * Further properties of the code *)

(** ** Where the block transform is defined *)

(** Iteration 3 of stage 1 would shift by [8 * (size_t)(-1)]. *)
Lemma pack_step_3 (inb : list byte) (buf : Z) :
  pack_step inb 3 buf = Fault UndefinedBehaviour.
Proof.
  unfold pack_step, load. change (3 <? 0) with false. cbv iota.
  destruct (nth_error inb (Z.to_nat 3)); reflexivity.
Qed.

Lemma load_Ok {A : Type} (a : list A) (i : Z) (v : A) :
  load a i = Ok v -> 0 <= i < Z.of_nat (length a).
Proof.
  unfold load. destruct (Z.ltb_spec i 0); [discriminate |].
  destruct (nth_error a (Z.to_nat i)) eqn:Hnth; [| discriminate].
  intros _. assert (Hlt : (Z.to_nat i < length a)%nat).
  { apply nth_error_Some. congruence. }
  lia.
Qed.

(** Stage 1 stops before iteration 3 and reads inside the array only. *)
Lemma pack_loop_bounds (inb : list byte) (n : nat) :
  forall (i s s' : Z),
    0 <= i <= 3 ->
    for_loop n i (pack_step inb) s = Ok s' ->
    i + Z.of_nat n <= 3 /\
    (n <> 0%nat -> i + Z.of_nat n <= Z.of_nat (length inb)).
Proof.
  induction n as [| n IH]; intros i s s' Hi Hrun.
  - split; [lia | congruence].
  - cbn [for_loop] in Hrun. apply bind_Ok in Hrun.
    destruct Hrun as (s1 & Hstep & Hrun).
    assert (Hi2 : i <= 2).
    { destruct (Z.eq_dec i 3) as [-> |]; [| lia].
      rewrite pack_step_3 in Hstep. discriminate. }
    unfold pack_step in Hstep. apply bind_Ok in Hstep.
    destruct Hstep as (b & Hload & _). apply load_Ok in Hload.
    apply IH in Hrun; [| lia]. destruct Hrun as (Hn & Hlen).
    split; [lia |]. intros _.
    destruct n as [| n']; [lia |].
    assert (S n' <> 0%nat) as Hne by discriminate.
    specialize (Hlen Hne). lia.
Qed.

Lemma store_Ok {A : Type} (a a' : list A) (i : Z) (v : A) :
  store a i v = Ok a' -> 0 <= i < Z.of_nat (length a).
Proof.
  unfold store. destruct (Z.leb_spec 0 i); cbn [andb]; [| discriminate].
  destruct (Z.ltb_spec i (Z.of_nat (length a))); [lia | discriminate].
Qed.

Lemma symbol_step_Ok (buf i : Z) (s s' : list ascii * Z) :
  symbol_step buf i s = Ok s' -> i < Z.of_nat (length (fst s)).
Proof.
  destruct s as [out msk]. unfold symbol_step. intros H.
  apply bind_Ok in H. destruct H as (idx & _ & H).
  apply bind_Ok in H. destruct H as (c & _ & H).
  apply bind_Ok in H. destruct H as (out1 & Hstore & _).
  apply store_Ok in Hstore. cbn [fst]. lia.
Qed.

(** Stage 2 writes inside the array only. *)
Lemma symbol_loop_inside (buf : Z) (n : nat) :
  forall (i : Z) (s s' : list ascii * Z),
    0 <= i <= 4 ->
    for_loop n i (symbol_step buf) s = Ok s' ->
    n <> 0%nat -> i + Z.of_nat n <= Z.of_nat (length (fst s)).
Proof.
  induction n as [| n IH]; intros i s s' Hi Hrun Hn; [congruence |].
  pose proof (symbol_loop_frame buf (S n) i s s' Hi Hrun) as (Hle & _).
  cbn [for_loop] in Hrun. apply bind_Ok in Hrun.
  destruct Hrun as (s1 & Hstep & Hrun).
  pose proof (symbol_step_Ok _ _ _ _ Hstep) as Hin.
  apply symbol_step_frame in Hstep. destruct Hstep as (_ & Hlen1 & _).
  destruct n as [| n']; [lia |].
  assert (S n' <> 0%nat) as Hne by discriminate.
  assert (Hi1 : 0 <= i + 1 <= 4) by lia.
  specialize (IH (i + 1) s1 s' Hi1 Hrun Hne).
  rewrite Hlen1 in IH. lia.
Qed.

(** Stage 2.5 writes inside the array only. *)
Lemma pad_loop_inside (n : nat) :
  forall (i : Z) (out out' : list ascii),
    0 <= i ->
    for_loop n i pad_step out = Ok out' ->
    n <> 0%nat -> i + Z.of_nat n <= Z.of_nat (length out).
Proof.
  induction n as [| n IH]; intros i out out' Hi Hrun Hn; [congruence |].
  cbn [for_loop] in Hrun. apply bind_Ok in Hrun.
  destruct Hrun as (out1 & Hstep & Hrun).
  pose proof (store_Ok _ _ _ _ Hstep) as Hin.
  apply store_frame in Hstep. destruct Hstep as (_ & Hlen1 & _).
  destruct n as [| n']; [lia |].
  assert (S n' <> 0%nat) as Hne by discriminate.
  assert (Hi1 : 0 <= i + 1) by lia.
  specialize (IH (i + 1) out1 out' Hi1 Hrun Hne).
  rewrite Hlen1 in IH. lia.
Qed.

(** What a call that returns tells about its arguments. *)
Lemma block_Ok_bounds (m m' : buffers) (len_in : Z) :
  0 <= len_in ->
  base64_encode_block m len_in = Ok m' ->
  len_in <= 3 /\
  len_in <= Z.of_nat (length (buf_in m)) /\
  (4 <= length (buf_out m))%nat.
Proof.
  intros Hpos H. unfold base64_encode_block in H.
  apply bind_Ok in H. destruct H as (buf & Hpack & H).
  apply bind_Ok in H. destruct H as (msk & _ & H).
  apply bind_Ok in H. destruct H as ([out1 msk1] & Hsym & H).
  apply bind_Ok in H. destruct H as (out2 & Hpad & _).
  unfold pack, for_range in Hpack. unfold for_range in Hsym, Hpad.
  apply pack_loop_bounds in Hpack; [| lia].
  destruct Hpack as (Hn & Hlen).
  pose proof (len_out_nonneg len_in) as Hout.
  assert (H04 : 0 <= 0 <= 4) by lia.
  pose proof (symbol_loop_frame _ _ _ _ _ H04 Hsym) as (Hle & Hlen1 & _).
  cbn [fst] in Hlen1.
  split; [lia |]. split.
  - destruct (Z.eq_dec len_in 0) as [-> | Hne]; [lia |].
    assert (Z.to_nat (len_in - 0) <> 0%nat) as Hn0 by lia.
    specialize (Hlen Hn0). lia.
  - destruct (Z.eq_dec (len_out_of len_in) 4) as [He | Hne].
    + apply symbol_loop_inside in Hsym; [| lia | rewrite He; discriminate].
      cbn [fst] in Hsym. rewrite He in Hsym.
      change (Z.of_nat (Z.to_nat (4 - 0))) with 4 in Hsym. lia.
    + apply pad_loop_inside in Hpad; [| lia | lia]. lia.
Qed.

(** A block of no byte at all: four padding characters. *)
Lemma block_0 (o0 o1 o2 o3 : ascii) (rest : list ascii) (inb : list byte) :
  base64_encode_block
    {| buf_out := o0 :: o1 :: o2 :: o3 :: rest; buf_in := inb |} 0
  = Ok {| buf_out := [PAD; PAD; PAD; PAD] ++ rest; buf_in := inb |}.
Proof.
  unfold base64_encode_block. cbn [buf_in buf_out].
  unfold pack, for_range. change (Z.to_nat (0 - 0)) with 0%nat.
  cbn [for_loop bind]. rewrite msk_init_eq. cbn [bind].
  change (len_out_of 0) with 0. change (Z.to_nat (0 - 0)) with 0%nat.
  change (Z.to_nat (4 - 0)) with 4%nat.
  cbn [for_loop bind]. fold_indices.
  step_pad. step_pad. step_pad. step_pad. reflexivity.
Qed.

Lemma bind_Fault {A B : Type} (m : result A) (k : A -> result B) (e : fault) :
  bind m k = Fault e ->
  m = Fault e \/ exists a, m = Ok a /\ k a = Fault e.
Proof.
  destruct m as [a | e']; cbn [bind]; intros H.
  - right. exists a. auto.
  - left. congruence.
Qed.

(** A loop whose body can only fail as undefined behaviour fails so. *)
Lemma for_loop_fault {S : Type} (body : Z -> S -> result S) :
  (forall i s e, body i s = Fault e -> e = UndefinedBehaviour) ->
  forall n i s e, for_loop n i body s = Fault e -> e = UndefinedBehaviour.
Proof.
  intros Hbody. induction n as [| n IH]; intros i s e H;
    cbn [for_loop] in H; [discriminate |].
  apply bind_Fault in H. destruct H as [H | (s1 & _ & H)].
  - apply (Hbody _ _ _ H).
  - apply (IH _ _ _ H).
Qed.

Lemma load_fault {A : Type} (a : list A) (i : Z) (e : fault) :
  load a i = Fault e -> e = UndefinedBehaviour.
Proof.
  unfold load. destruct (i <? 0); [congruence |].
  destruct (nth_error a (Z.to_nat i)); congruence.
Qed.

Lemma store_fault {A : Type} (a : list A) (i : Z) (v : A) (e : fault) :
  store a i v = Fault e -> e = UndefinedBehaviour.
Proof.
  unfold store. destruct ((0 <=? i) && (i <? Z.of_nat (length a)));
    congruence.
Qed.

Lemma shl_fault (x k : Z) (e : fault) :
  U32.shl x k = Fault e -> e = UndefinedBehaviour.
Proof. unfold U32.shl. destruct ((0 <=? k) && (k <? 32)); congruence. Qed.

Lemma shr_fault (x k : Z) (e : fault) :
  U32.shr x k = Fault e -> e = UndefinedBehaviour.
Proof. unfold U32.shr. destruct ((0 <=? k) && (k <? 32)); congruence. Qed.

Ltac fault_cases H :=
  repeat (apply bind_Fault in H; destruct H as [H | (? & _ & H)]);
  first [ apply load_fault in H | apply store_fault in H
        | apply shl_fault in H | apply shr_fault in H | discriminate H ];
  try exact H.

(** The transform has no failure of its own: it fails as undefined
    behaviour or not at all. *)
Lemma block_fault (m : buffers) (len_in : Z) (e : fault) :
  base64_encode_block m len_in = Fault e -> e = UndefinedBehaviour.
Proof.
  unfold base64_encode_block. intros H.
  apply bind_Fault in H. destruct H as [H | (buf & _ & H)].
  { unfold pack, for_range in H. revert H. apply for_loop_fault.
    intros i s e' H. unfold pack_step in H. fault_cases H. }
  apply bind_Fault in H. destruct H as [H | (msk & _ & H)].
  { unfold msk_init in H. apply (shl_fault _ _ _ H). }
  apply bind_Fault in H. destruct H as [H | ([out1 msk1] & _ & H)].
  { unfold for_range in H. revert H. apply for_loop_fault.
    intros i [out msk0] e' H. unfold symbol_step, sym_index in H.
    fault_cases H. }
  apply bind_Fault in H. destruct H as [H | (out2 & _ & H)]; [| discriminate].
  unfold for_range in H. revert H. apply for_loop_fault.
  intros i s e' H. unfold pad_step in H. apply (store_fault _ _ _ _ H).
Qed.

(** X1.  The block transform returns exactly when [len_in] is at most 3,
    the input array holds at least [len_in] bytes and the output array at
    least 4 characters; every other call is undefined behaviour (a shift by
    more than the width of the type, or an access outside an array). *)
Theorem X1_block_defined_iff (m : buffers) (len_in : Z) :
  0 <= len_in ->
  ((exists m', base64_encode_block m len_in = Ok m') <->
   len_in <= 3 /\
   len_in <= Z.of_nat (length (buf_in m)) /\
   (4 <= length (buf_out m))%nat) /\
  ((forall m', base64_encode_block m len_in <> Ok m') ->
   base64_encode_block m len_in = Fault UndefinedBehaviour).
Proof.
  intros Hpos. split; [split |].
  - intros (m' & Hrun). apply (block_Ok_bounds m m' len_in Hpos Hrun).
  - intros (H3 & Hin & Hout).
    destruct (Z.eq_dec len_in 0) as [-> | Hne].
    + destruct m as [out inb]. cbn [buf_out] in Hout.
      destruct out as [| o0 [| o1 [| o2 [| o3 rest]]]]; cbn [length] in Hout;
        try lia.
      eexists. apply block_0.
    + eexists. apply block_spec; [lia | exact Hin | exact Hout].
  - intros Hno. destruct (base64_encode_block m len_in) as [m' | e] eqn:Hrun.
    + destruct (Hno m' eq_refl).
    + f_equal. apply (block_fault m len_in e Hrun).
Qed.

Lemma X1_block_defined_iff_witness :
  let m := {| buf_out := [NUL; NUL; NUL]; buf_in := [x4d; x61; x6e] |} in
  0 <= 3 /\
  ~ (4 <= length (buf_out m))%nat /\
  base64_encode_block m 3 = Fault UndefinedBehaviour.
Proof.
  cbv zeta. cbn [buf_out length]. split; [lia |]. split; [lia |].
  destruct (X1_block_defined_iff
              {| buf_out := [NUL; NUL; NUL]; buf_in := [x4d; x61; x6e] |} 3)
    as (Hiff & Hfault); [lia |].
  apply Hfault. intros m' Hrun.
  assert (Hex : exists m0,
    base64_encode_block
      {| buf_out := [NUL; NUL; NUL]; buf_in := [x4d; x61; x6e] |} 3 = Ok m0)
    by (exists m'; exact Hrun).
  apply Hiff in Hex. cbn [buf_out length] in Hex. lia.
Defined.

(** X2.  Called with [len_in = 0], the transform reads no byte and fills
    the four positions with the padding character. *)
Theorem X2_block_of_no_byte (m : buffers) :
  (4 <= length (buf_out m))%nat ->
  base64_encode_block m 0
  = Ok {| buf_out := [PAD; PAD; PAD; PAD] ++ skipn 4 (buf_out m);
          buf_in := buf_in m |}.
Proof.
  intros Hout. destruct m as [out inb]. cbn [buf_in buf_out] in *.
  destruct out as [| o0 [| o1 [| o2 [| o3 rest]]]]; cbn [length] in Hout;
    try lia.
  apply block_0.
Qed.

Lemma X2_block_of_no_byte_witness :
  (4 <= length [NUL; NUL; NUL; NUL; NUL])%nat /\
  base64_encode_block
    {| buf_out := [NUL; NUL; NUL; NUL; NUL]; buf_in := [] |} 0
  = Ok {| buf_out := [PAD; PAD; PAD; PAD; NUL]; buf_in := [] |}.
Proof.
  split; [cbn [length]; lia |].
  apply (X2_block_of_no_byte
           {| buf_out := [NUL; NUL; NUL; NUL; NUL]; buf_in := [] |}).
  cbn [buf_out length]. lia.
Defined.

(** X3.  The four characters written depend on the first [len_in] bytes of
    the input array only: neither the bytes beyond them (left over from an
    earlier read) nor the previous content of the output array show. *)
Theorem X3_block_reads_its_bytes_only (m1 m2 : buffers) (len_in : Z) :
  1 <= len_in <= 3 ->
  len_in <= Z.of_nat (length (buf_in m1)) ->
  len_in <= Z.of_nat (length (buf_in m2)) ->
  (4 <= length (buf_out m1))%nat ->
  (4 <= length (buf_out m2))%nat ->
  firstn (Z.to_nat len_in) (buf_in m1) = firstn (Z.to_nat len_in) (buf_in m2) ->
  exists m1' m2',
    base64_encode_block m1 len_in = Ok m1' /\
    base64_encode_block m2 len_in = Ok m2' /\
    firstn 4 (buf_out m1') = firstn 4 (buf_out m2').
Proof.
  intros Hlen Hin1 Hin2 Hout1 Hout2 Heq.
  eexists. eexists.
  split; [apply block_spec; assumption |].
  split; [apply block_spec; assumption |].
  cbn [buf_out]. rewrite Heq.
  assert (Hq : length (encode_bytes (firstn (Z.to_nat len_in) (buf_in m2)))
               = 4%nat).
  { apply encode_bytes_length. rewrite length_firstn. lia. }
  rewrite !firstn_app, Hq. reflexivity.
Qed.

Lemma X3_block_reads_its_bytes_only_witness :
  exists m1' m2',
    base64_encode_block
      {| buf_out := [NUL; NUL; NUL; NUL; NUL]; buf_in := [x4d; x00; x00] |} 1
    = Ok m1' /\
    base64_encode_block
      {| buf_out := [PAD; PAD; PAD; PAD; NUL]; buf_in := [x4d; x61; x6e] |} 1
    = Ok m2' /\
    firstn 4 (buf_out m1') = firstn 4 (buf_out m2').
Proof.
  apply (X3_block_reads_its_bytes_only
           {| buf_out := [NUL; NUL; NUL; NUL; NUL];
              buf_in := [x4d; x00; x00] |}
           {| buf_out := [PAD; PAD; PAD; PAD; NUL];
              buf_in := [x4d; x61; x6e] |} 1);
    cbn [buf_in buf_out length]; try lia.
  reflexivity.
Defined.

(** ** The driver and its stream *)

Lemma fread_stream_ok (buf buf' : list byte) (n : nat) (f f' : FILE) (k : Z) :
  fread buf n f = (k, buf', f') -> stream_ok f -> stream_ok f'.
Proof.
  unfold fread. destruct (eof_ind f) eqn:He; intros H Hok.
  - injection H as _ _ <-. exact Hok.
  - injection H as _ _ <-. unfold stream_ok. cbn [eof_ind unread].
    intros Hshort. apply andb_prop in Hshort. destruct Hshort as (Hshort & _).
    apply Nat.ltb_lt in Hshort.
    rewrite length_firstn in Hshort. apply skipn_all2. lia.
Qed.

(** The inner loop sets [eof] only after [feof] has answered yes. *)
Lemma line_loop_flag (n : nat) :
  forall st st',
    (st_eof st = true -> feof (st_in st) = true) ->
    line_loop n st = Ok st' ->
    st_eof st' = true -> feof (st_in st') = true.
Proof.
  induction n as [| n IH]; intros st st' Hflag Hrun.
  - cbn [line_loop] in Hrun. injection Hrun as <-. exact Hflag.
  - rewrite line_loop_S in Hrun. destruct (st_eof st) eqn:He.
    { injection Hrun as <-. intros _. apply Hflag. reflexivity. }
    destruct (fread (buf_in (st_mem st)) 3 (st_in st)) as [[nread inb] f].
    cbv zeta in Hrun. destruct (nread =? 0).
    + destruct (feof f) eqn:Hf; [| discriminate].
      injection Hrun as <-. cbn [st_in]. auto.
    + apply bind_Ok in Hrun. destruct Hrun as (m' & _ & Hrun).
      apply bind_Ok in Hrun. destruct Hrun as (s & _ & Hrun).
      intros Hd. eapply IH; [| exact Hrun | exact Hd].
      cbn [st_eof]. intros Hx. rewrite ?He in Hx. discriminate Hx.
Qed.

Lemma line_loop_stream (n : nat) :
  forall st st',
    stream_ok (st_in st) -> line_loop n st = Ok st' -> stream_ok (st_in st').
Proof.
  induction n as [| n IH]; intros st st' Hok Hrun.
  - cbn [line_loop] in Hrun. injection Hrun as <-. exact Hok.
  - rewrite line_loop_S in Hrun. destruct (st_eof st) eqn:He.
    { injection Hrun as <-. exact Hok. }
    destruct (fread (buf_in (st_mem st)) 3 (st_in st)) as [[nread inb] f]
      eqn:Hread.
    pose proof (fread_stream_ok _ _ _ _ _ _ Hread Hok) as Hok1.
    cbv zeta in Hrun. destruct (nread =? 0).
    + destruct (feof f); [| discriminate].
      injection Hrun as <-. exact Hok1.
    + apply bind_Ok in Hrun. destruct Hrun as (m' & _ & Hrun).
      apply bind_Ok in Hrun. destruct Hrun as (s & _ & Hrun).
      apply IH in Hrun; [exact Hrun |]. exact Hok1.
Qed.

Lemma while_loop_flag (fuel : nat) :
  forall st st',
    (st_eof st = true -> feof (st_in st) = true) ->
    while_loop fuel st = Ok st' ->
    st_eof st' = true /\ feof (st_in st') = true.
Proof.
  induction fuel as [| fuel IH]; intros st st' Hflag Hrun.
  - cbn [while_loop] in Hrun. destruct (st_eof st) eqn:He; [| discriminate].
    injection Hrun as <-. auto.
  - destruct (st_eof st) eqn:He.
    + rewrite while_loop_done in Hrun by exact He.
      injection Hrun as <-. auto.
    + rewrite while_loop_pass in Hrun by exact He.
      apply bind_Ok in Hrun. destruct Hrun as (st1 & Hpass & Hrun).
      apply IH in Hrun; [exact Hrun |]. cbn [put_crlf st_eof st_in].
      apply (line_loop_flag 19 st st1); [| exact Hpass].
      intros Hx. rewrite ?He in Hx. discriminate Hx.
Qed.

Lemma while_loop_stream (fuel : nat) :
  forall st st',
    stream_ok (st_in st) -> while_loop fuel st = Ok st' ->
    stream_ok (st_in st').
Proof.
  induction fuel as [| fuel IH]; intros st st' Hok Hrun.
  - cbn [while_loop] in Hrun. destruct (st_eof st); [| discriminate].
    injection Hrun as <-. exact Hok.
  - destruct (st_eof st) eqn:He.
    + rewrite while_loop_done in Hrun by exact He.
      injection Hrun as <-. exact Hok.
    + rewrite while_loop_pass in Hrun by exact He.
      apply bind_Ok in Hrun. destruct Hrun as (st1 & Hpass & Hrun).
      apply IH in Hrun; [exact Hrun |]. cbn [put_crlf st_in].
      apply (line_loop_stream 19 st st1 Hok Hpass).
Qed.

(** X4.  On a stream of finitely many bytes the driver has no undefined
    behaviour, whatever its uninitialised array holds, and ends in one of
    three ways.  A stream whose end-of-file indicator is set on entry is
    not read and nothing is written, not even a line break.  A stream
    whose bytes are followed by the end of the file is read to its end: the
    driver returns with the indicator set and no byte left.  A stream whose
    bytes are followed by a read error makes [fread] return 0 with the
    indicator clear, and [assert(feof(in))] fails. *)
Theorem X4_driver_outcomes (g0 g1 g2 : byte) (f : FILE) :
  (feof f = true ->
   exists st,
     base64_encode g0 g1 g2 f = Ok st /\ st_out st = [] /\ st_in st = f) /\
  (feof f = false -> read_fails f = false ->
   exists st,
     base64_encode g0 g1 g2 f = Ok st /\
     st_eof st = true /\
     feof (st_in st) = true /\
     unread (st_in st) = []) /\
  (feof f = false -> read_fails f = true ->
   base64_encode g0 g1 g2 f = Fault AssertionFailed) /\
  base64_encode g0 g1 g2 f <> Fault UndefinedBehaviour.
Proof.
  split; [| split; [| split]].
  - intros He. rewrite base64_encode_at_eof by exact He.
    eexists. split; [reflexivity |]. split; reflexivity.
  - intros He Hrf.
    destruct (base64_encode_spec g0 g1 g2 f He Hrf) as (st & Hrun & _).
    exists st. split; [exact Hrun |].
    pose proof Hrun as Hloop. unfold base64_encode in Hloop.
    assert (Hinit : st_eof (init_state g0 g1 g2 f) = true ->
                    feof (st_in (init_state g0 g1 g2 f)) = true)
      by (cbn [init_state st_eof st_in]; auto).
    destruct (while_loop_flag _ _ _ Hinit Hloop) as (Hd & Hfe).
    split; [exact Hd |]. split; [exact Hfe |].
    assert (Hok : stream_ok (st_in (init_state g0 g1 g2 f))).
    { unfold stream_ok. cbn [init_state st_in]. unfold feof in He.
      rewrite He. discriminate. }
    pose proof (while_loop_stream _ (init_state g0 g1 g2 f) _ Hok Hloop)
      as Hok'.
    apply Hok'. exact Hfe.
  - intros He Hrf. apply base64_encode_abort; assumption.
  - destruct (feof f) eqn:He.
    + rewrite base64_encode_at_eof by reflexivity || exact He. discriminate.
    + destruct (read_fails f) eqn:Hrf.
      * rewrite base64_encode_abort by assumption. discriminate.
      * destruct (base64_encode_spec g0 g1 g2 f He Hrf) as (st & Hrun & _).
        rewrite Hrun. discriminate.
Qed.

Lemma X4_driver_outcomes_witness :
  base64_encode x00 x00 x00 (fopen_device [x4d; x61; x6e; x4d] true)
  = Fault AssertionFailed.
Proof.
  destruct (X4_driver_outcomes x00 x00 x00
              (fopen_device [x4d; x61; x6e; x4d] true))
    as (_ & _ & Habort & _).
  apply Habort; reflexivity.
Defined.

(** ** The size and the end of the text *)

Lemma blocks_count (bs : list byte) :
  Z.of_nat (length (blocks bs)) = block_count (Z.of_nat (length bs)).
Proof.
  unfold block_count.
  assert (H : forall n l, (length l <= n)%nat ->
    Z.of_nat (length (blocks l)) = (Z.of_nat (length l) + 2) / 3).
  { induction n as [| n IH]; intros l Hl.
    - destruct l; [reflexivity | cbn [length] in Hl; lia].
    - destruct l as [| a [| b [| c rest]]]; try reflexivity.
      cbn [blocks]. cbn [length] in Hl. cbn [length].
      rewrite !Nat2Z.inj_succ, IH by lia.
      Z.div_mod_to_equations. lia. }
  apply (H (length bs)). lia.
Qed.

Lemma render_length (bl : list (list ascii)) :
  Forall (fun q => length q = 4%nat) bl ->
  forall k, (k <= 19)%nat ->
    Z.of_nat (length (render k bl))
    = 4 * Z.of_nat (length bl)
      + 2 * (1 + (Z.of_nat (length bl) + 19 - Z.of_nat k) / 19).
Proof.
  induction 1 as [| b bl Hb Hbl IH]; intros k Hk.
  - destruct k as [| k]; cbn [render length app].
    + reflexivity.
    + rewrite Z.div_small by lia. reflexivity.
  - destruct k as [| k]; cbn [render].
    + rewrite !length_app, !Nat2Z.inj_add, Hb, IH by lia. cbn [length].
      rewrite !Nat2Z.inj_succ.
      change (Z.of_nat 18) with 18. change (Z.of_nat 4) with 4.
      change (Z.of_nat 0) with 0.
      Z.div_mod_to_equations. lia.
    + rewrite !length_app, !Nat2Z.inj_add, Hb, IH by lia. cbn [length].
      rewrite !Nat2Z.inj_succ.
      change (Z.of_nat 4) with 4.
      Z.div_mod_to_equations. lia.
Qed.

Lemma encoded_quads_length (bs : list byte) :
  Forall (fun q => length q = 4%nat) (map encode_bytes (blocks bs)).
Proof.
  apply Forall_map. eapply Forall_impl; [| apply blocks_sizes].
  intros b Hb. apply encode_bytes_length. exact Hb.
Qed.

(** X5.  For an input of [n] bytes, read in [b = (n + 2) / 3] blocks, the
    text written has [4 * b + 2 * (b / 19 + 1)] characters: four for each
    block and a CRLF for each of the [b / 19 + 1] passes of the outer
    loop. *)
Theorem X5_text_length (bs : list byte) (g0 g1 g2 : byte) :
  exists st,
    base64_encode g0 g1 g2 (fopen bs) = Ok st /\
    Z.of_nat (length (st_out st))
    = 4 * block_count (Z.of_nat (length bs))
      + 2 * (block_count (Z.of_nat (length bs)) / 19 + 1).
Proof.
  destruct (base64_encode_spec g0 g1 g2 (fopen bs) eq_refl eq_refl)
    as (st & Hrun & Hout & _).
  exists st. split; [exact Hrun |].
  rewrite Hout. unfold encoded_text. cbn [fopen unread].
  rewrite render_length by (apply encoded_quads_length || lia).
  rewrite length_map, blocks_count.
  change (Z.of_nat 19) with 19.
  pose proof (blocks_count bs) as Hb.
  assert (0 <= block_count (Z.of_nat (length bs))) by lia.
  Z.div_mod_to_equations. lia.
Qed.

(** How the text ends: with the line break of an empty last pass, or with
    the line break that follows the last block, or, for no block at all,
    it is one line break. *)
Lemma render_end (bl : list (list ascii)) :
  Forall is_quad bl ->
  forall k, (k <= 19)%nat ->
    ((k <= length bl)%nat /\
     (Z.of_nat (length bl) - Z.of_nat k) mod 19 = 0 ->
     exists p, render k bl = p ++ [CR; LF; CR; LF]) /\
    (~ ((k <= length bl)%nat /\
        (Z.of_nat (length bl) - Z.of_nat k) mod 19 = 0) ->
     render k bl = [CR; LF] \/
     exists p c, plain c /\ render k bl = p ++ [c; CR; LF]).
Proof.
  induction 1 as [| b bl Hb Hbl IH]; intros k Hk.
  - destruct k as [| k]; cbn [render length app]; split.
    + intros _. exists []. reflexivity.
    + intros Hn. exfalso. apply Hn. split; [lia | reflexivity].
    + intros (Hle & _). lia.
    + intros _. left. reflexivity.
  - destruct Hb as (Hlen & Hplain).
    assert (Hlast : exists q c, b = q ++ [c] /\ plain c).
    { destruct b as [| c0 b] using rev_ind; [discriminate |].
      exists b, c0. split; [reflexivity |].
      apply Forall_app in Hplain. destruct Hplain as (_ & Hc).
      inversion Hc. assumption. }
    destruct k as [| k]; cbn [render length].
    + destruct (IH 18%nat) as (Hyes & Hno); [lia |].
      rewrite Nat2Z.inj_succ. change (Z.of_nat 0) with 0.
      change (Z.of_nat 18) with 18 in *.
      split.
      * intros (_ & Hmod).
        destruct (Nat.le_gt_cases 18 (length bl)) as [Hge | Hlt].
        -- destruct Hyes as (p & Hp).
           { split; [exact Hge |]. Z.div_mod_to_equations. lia. }
           exists ([CR; LF] ++ b ++ p). rewrite Hp, <- !app_assoc.
           reflexivity.
        -- exfalso. Z.div_mod_to_equations. lia.
      * intros Hn.
        destruct Hno as [Hone | (p & c & Hc & Hp)].
        { intros (Hge & Hmod). apply Hn. split; [lia |].
          Z.div_mod_to_equations. lia. }
        -- right. destruct Hlast as (q & c & -> & Hc).
           exists ([CR; LF] ++ q), c. split; [exact Hc |].
           rewrite Hone, <- !app_assoc. reflexivity.
        -- right. exists ([CR; LF] ++ b ++ p), c. split; [exact Hc |].
           rewrite Hp, <- !app_assoc. reflexivity.
    + destruct (IH k) as (Hyes & Hno); [lia |].
      rewrite !Nat2Z.inj_succ.
      replace (Z.succ (Z.of_nat (length bl)) - Z.succ (Z.of_nat k))
        with (Z.of_nat (length bl) - Z.of_nat k) by lia.
      split.
      * intros (Hle & Hmod). destruct Hyes as (p & Hp).
        { split; [lia | exact Hmod]. }
        exists (b ++ p). rewrite Hp, <- app_assoc. reflexivity.
      * intros Hn.
        destruct Hno as [Hone | (p & c & Hc & Hp)].
        { intros (Hle & Hmod). apply Hn. split; [lia | exact Hmod]. }
        -- right. destruct Hlast as (q & c & -> & Hc).
           exists q, c. split; [exact Hc |].
           rewrite Hone, <- app_assoc. reflexivity.
        -- right. exists (b ++ p), c. split; [exact Hc |].
           rewrite Hp, <- app_assoc. reflexivity.
Qed.

(** X6.  For a stream as [fopen] returns it, the text always ends in CRLF.
    It ends in two of them, the second closing an empty last line, exactly
    when the input is not empty and is read in a multiple of 19 blocks:
    inputs of 57, but also of 55 and 56 bytes, and so on. *)
Theorem X6_text_end (bs : list byte) (g0 g1 g2 : byte) :
  exists st,
    base64_encode g0 g1 g2 (fopen bs) = Ok st /\
    (exists p, st_out st = p ++ [CR; LF]) /\
    ((exists p, st_out st = p ++ [CR; LF; CR; LF]) <->
     bs <> [] /\ block_count (Z.of_nat (length bs)) mod 19 = 0).
Proof.
  destruct (base64_encode_spec g0 g1 g2 (fopen bs) eq_refl eq_refl)
    as (st & Hrun & Hout & _).
  exists st. split; [exact Hrun |].
  rewrite Hout. unfold encoded_text. cbn [fopen unread]. clear Hrun Hout.
  set (bl := map encode_bytes (blocks bs)).
  assert (Hquads : Forall is_quad bl).
  { apply Forall_map. eapply Forall_impl; [| apply blocks_sizes].
    intros b Hb. apply encode_bytes_quad. exact Hb. }
  assert (Hn : Z.of_nat (length bl) = block_count (Z.of_nat (length bs))).
  { unfold bl. rewrite length_map. apply blocks_count. }
  assert (Hne : bs <> [] <-> 0 < Z.of_nat (length bl)).
  { unfold bl. rewrite length_map.
    destruct bs as [| a [| b [| c rest]]]; cbn [blocks length]; split;
      intros H; try congruence; lia. }
  destruct (render_end bl Hquads 19) as (Hyes & Hno); [lia |].
  change (Z.of_nat 19) with 19 in *.
  set (two := (19 <= length bl)%nat
              /\ (Z.of_nat (length bl) - 19) mod 19 = 0) in *.
  assert (Hdec : two \/ ~ two).
  { unfold two. destruct (le_dec 19 (length bl)) as [Hle | Hgt];
      [| right; tauto].
    destruct (Z.eq_dec ((Z.of_nat (length bl) - 19) mod 19) 0);
      [left | right]; tauto. }
  assert (Htwo : two <->
    bs <> [] /\ block_count (Z.of_nat (length bs)) mod 19 = 0).
  { unfold two. rewrite Hne, <- Hn. split; intros (H1 & H2).
    - split; [lia |]. revert H2. Z.div_mod_to_equations. lia.
    - split.
      + assert (0 < Z.of_nat (length bl) /\ Z.of_nat (length bl) mod 19 = 0)
          as Hb by auto.
        assert (19 <= Z.of_nat (length bl)); [| lia].
        destruct Hb as (Hb1 & Hb2). revert Hb2.
        Z.div_mod_to_equations. lia.
      + revert H2. Z.div_mod_to_equations. lia. }
  split.
  - destruct Hdec as [Hy | Hn0].
    + destruct (Hyes Hy) as (p & ->). exists (p ++ [CR; LF]).
      rewrite <- app_assoc. reflexivity.
    + destruct (Hno Hn0) as [-> | (p & c & _ & ->)].
      * exists []. reflexivity.
      * exists (p ++ [c]). rewrite <- app_assoc. reflexivity.
  - rewrite <- Htwo. split; [| exact Hyes].
    intros (p & Hp). destruct Hdec as [Hy | Hn0]; [exact Hy | exfalso].
    destruct (Hno Hn0) as [Hone | (p' & c & Hc & Hp')].
    + rewrite Hone in Hp. apply (f_equal (@length ascii)) in Hp.
      rewrite length_app in Hp. cbn [length] in Hp. lia.
    + rewrite Hp' in Hp.
      change (p' ++ [c; CR; LF]) with (p' ++ [c] ++ [CR; LF]) in Hp.
      change (p ++ [CR; LF; CR; LF]) with (p ++ [CR; LF] ++ [CR; LF]) in Hp.
      rewrite !app_assoc in Hp. apply app_inv_tail in Hp.
      change (p ++ [CR; LF]) with (p ++ [CR] ++ [LF]) in Hp.
      rewrite app_assoc in Hp. apply app_inj_tail in Hp.
      destruct Hp as (_ & ->). destruct Hc as (_ & Hlf & _).
      apply Hlf. reflexivity.
Qed.

(** ** The characters of the text *)

Lemma symbol_in_alphabet (k : Z) : 0 <= k <= 63 -> In (symbol k) alphabet.
Proof.
  intros Hk. unfold symbol. apply nth_In. rewrite alphabet_length. lia.
Qed.

Lemma encode_bytes_wire (block : list byte) :
  Forall wire_char (encode_bytes block).
Proof.
  assert (Hs : forall v i, wire_char (symbol (sextet v i))).
  { intros v i. left. apply symbol_in_alphabet, sextet_range. }
  assert (Hp : wire_char PAD) by (right; left; reflexivity).
  destruct block as [| b0 [| b1 [| b2 [| b3 l]]]]; cbn [encode_bytes];
    repeat (apply Forall_cons || apply Forall_nil); auto.
Qed.

Lemma render_wire (bl : list (list ascii)) :
  Forall (Forall wire_char) bl -> forall k, Forall wire_char (render k bl).
Proof.
  assert (Hcrlf : Forall wire_char [CR; LF]).
  { constructor; [right; right; left; reflexivity |].
    constructor; [right; right; right; reflexivity | constructor]. }
  induction 1 as [| b bl Hb Hbl IH]; intros k.
  - destruct k; cbn [render]; [apply Forall_app; split |]; exact Hcrlf.
  - destruct k as [| k]; cbn [render]; repeat (apply Forall_app; split);
      auto.
Qed.

(** X7.  Every character written is one of the 64 symbols of the table,
    the padding character, CR or LF: the zero that ends the table, and the
    zero that ends [buf_out], never reach the output. *)
Theorem X7_text_characters (bs : list byte) (g0 g1 g2 : byte) :
  exists st,
    base64_encode g0 g1 g2 (fopen bs) = Ok st /\
    Forall wire_char (st_out st) /\
    ~ In NUL (st_out st).
Proof.
  destruct (base64_encode_spec g0 g1 g2 (fopen bs) eq_refl eq_refl)
    as (st & Hrun & Hout & _).
  exists st. split; [exact Hrun |].
  assert (Hwire : Forall wire_char (st_out st)).
  { rewrite Hout. unfold encoded_text. apply render_wire.
    apply Forall_map. apply Forall_forall. intros b _.
    apply encode_bytes_wire. }
  split; [exact Hwire |].
  intros Hin. rewrite Forall_forall in Hwire.
  destruct (Hwire NUL Hin) as [Ha | [Hp | [Hc | Hl]]]; try discriminate.
  revert Ha. unfold alphabet. cbn. intuition discriminate.
Qed.

Lemma count_pad_render (bl : list (list ascii)) :
  forall k,
    count_occ ascii_dec (render k bl) PAD
    = count_occ ascii_dec (concat bl) PAD.
Proof.
  assert (Hcrlf : forall t, count_occ ascii_dec ([CR; LF] ++ t) PAD
                            = count_occ ascii_dec t PAD).
  { intros t. reflexivity. }
  induction bl as [| b bl IH]; intros k.
  - destruct k; reflexivity.
  - destruct k as [| k]; cbn [render concat];
      rewrite ?Hcrlf, !count_occ_app, IH; reflexivity.
Qed.

Lemma count_pad_blocks (bs : list byte) :
  Z.of_nat (count_occ ascii_dec (concat (map encode_bytes (blocks bs))) PAD)
  = (3 - Z.of_nat (length bs) mod 3) mod 3.
Proof.
  assert (H : forall n l, (length l <= n)%nat ->
    Z.of_nat (count_occ ascii_dec (concat (map encode_bytes (blocks l))) PAD)
    = (3 - Z.of_nat (length l) mod 3) mod 3).
  { induction n as [| n IH]; intros l Hl.
    - destruct l; [reflexivity | cbn [length] in Hl; lia].
    - destruct l as [| a [| b [| c rest]]].
      + reflexivity.
      + cbn [blocks map concat encode_bytes app].
        rewrite !count_pad_symbol. reflexivity.
      + cbn [blocks map concat encode_bytes app].
        rewrite !count_pad_symbol. reflexivity.
      + cbn [blocks map concat encode_bytes app].
        rewrite !count_pad_symbol, IH by (cbn [length] in Hl; lia).
        cbn [length]. rewrite !Nat2Z.inj_succ.
        Z.div_mod_to_equations. lia. }
  apply (H (length bs)). lia.
Qed.

(** X8.  The text holds as many padding characters as bytes are missing
    from the last block: none when the length of the input is a multiple
    of 3, two when it leaves a remainder of 1, one when it leaves 2. *)
Theorem X8_padding_count (bs : list byte) (g0 g1 g2 : byte) :
  exists st,
    base64_encode g0 g1 g2 (fopen bs) = Ok st /\
    Z.of_nat (count_occ ascii_dec (st_out st) PAD)
    = (3 - Z.of_nat (length bs) mod 3) mod 3.
Proof.
  destruct (base64_encode_spec g0 g1 g2 (fopen bs) eq_refl eq_refl)
    as (st & Hrun & Hout & _).
  exists st. split; [exact Hrun |].
  rewrite Hout. unfold encoded_text. cbn [fopen unread].
  rewrite count_pad_render. apply count_pad_blocks.
Qed.

(** X9.  Encoding loses nothing: two byte sequences for which the driver
    writes the same text are equal. *)
Theorem X9_encoding_injective (bs1 bs2 : list byte) (g0 g1 g2 h0 h1 h2 : byte)
  (st1 st2 : state) :
  base64_encode g0 g1 g2 (fopen bs1) = Ok st1 ->
  base64_encode h0 h1 h2 (fopen bs2) = Ok st2 ->
  st_out st1 = st_out st2 ->
  bs1 = bs2.
Proof.
  intros Hrun1 Hrun2 Heq.
  destruct (base64_encode_spec g0 g1 g2 (fopen bs1) eq_refl eq_refl)
    as (st1' & Hrun1' & Hout1 & _).
  destruct (base64_encode_spec h0 h1 h2 (fopen bs2) eq_refl eq_refl)
    as (st2' & Hrun2' & Hout2 & _).
  rewrite Hrun1 in Hrun1'. injection Hrun1' as <-.
  rewrite Hrun2 in Hrun2'. injection Hrun2' as <-.
  cbn [fopen unread] in Hout1, Hout2.
  assert (Hdec : forall bs,
    reference_decode (strip_crlf (encoded_text bs)) = Some bs).
  { intros bs. unfold encoded_text. rewrite strip_render.
    - apply decode_encoded.
    - apply Forall_map. apply Forall_forall. intros b _.
      apply encode_bytes_plain. }
  pose proof (Hdec bs1) as H1. pose proof (Hdec bs2) as H2.
  rewrite <- Hout1, Heq, Hout2, H2 in H1. congruence.
Qed.

Lemma X9_encoding_injective_witness :
  exists st1 st2,
    base64_encode x00 x00 x00 (fopen [x4d; x61]) = Ok st1 /\
    base64_encode x01 x02 x03 (fopen [x4d; x61]) = Ok st2 /\
    st_out st1 = st_out st2 /\
    [x4d; x61] = [x4d; x61].
Proof.
  eexists. eexists.
  split; [reflexivity |]. split; [reflexivity |]. split; [reflexivity |].
  eapply (X9_encoding_injective [x4d; x61] [x4d; x61]
            x00 x00 x00 x01 x02 x03); reflexivity.
Defined.

(** ** Inputs that end on a line *)

Lemma blocks_app (n : nat) :
  forall bs1 bs2,
    length bs1 = (3 * n)%nat ->
    blocks (bs1 ++ bs2) = blocks bs1 ++ blocks bs2.
Proof.
  induction n as [| n IH]; intros bs1 bs2 Hlen.
  - destruct bs1; [reflexivity | discriminate].
  - destruct bs1 as [| a [| b [| c rest]]]; cbn [length] in Hlen; try lia.
    cbn [app blocks]. rewrite IH by lia. reflexivity.
Qed.

(** A pass that is given the blocks it may still take, and more. *)
Lemma render_take (k : nat) :
  forall a rest,
    length a = k -> render k (a ++ rest) = concat a ++ render 0 rest.
Proof.
  induction k as [| k IH]; intros a rest Hlen.
  - destruct a; [reflexivity | discriminate].
  - destruct a as [| b a]; [discriminate |].
    cbn [app render concat]. rewrite IH by (cbn [length] in Hlen; lia).
    rewrite <- app_assoc. reflexivity.
Qed.

Lemma render_whole_lines (n : nat) :
  forall bl1 bl2,
    length bl1 = (19 * n)%nat ->
    exists p,
      render 19 bl1 = p ++ [CR; LF] /\
      render 19 (bl1 ++ bl2) = p ++ render 19 bl2.
Proof.
  induction n as [| n IH]; intros bl1 bl2 Hlen.
  - destruct bl1; [| discriminate]. exists []. split; reflexivity.
  - assert (Hfirst : length (firstn 19 bl1) = 19%nat)
      by (rewrite length_firstn; lia).
    assert (Hrest : length (skipn 19 bl1) = (19 * n)%nat)
      by (rewrite length_skipn; lia).
    pose proof (firstn_skipn 19 bl1) as Hsplit.
    remember (firstn 19 bl1) as a eqn:Ha.
    remember (skipn 19 bl1) as b eqn:Hb.
    rewrite <- Hsplit. clear Hsplit Ha Hb Hlen.
    destruct (IH b bl2 Hrest) as (p & Hp1 & Hp2).
    exists (concat a ++ [CR; LF] ++ p).
    rewrite <- (app_assoc a b bl2).
    rewrite !render_take, !render_0, Hp1, Hp2 by exact Hfirst.
    rewrite <- !app_assoc. split; reflexivity.
Qed.

(** X10.  When the first part of an input fills whole lines (a multiple of
    57 bytes), the text of the whole input is the text of that part without
    its last CRLF, followed by the text of the rest: encoding can be cut at
    line boundaries. *)
Theorem X10_cut_at_lines (n : nat) (bs1 bs2 : list byte)
  (g0 g1 g2 : byte) :
  length bs1 = (57 * n)%nat ->
  exists st1 st2 st p,
    base64_encode g0 g1 g2 (fopen bs1) = Ok st1 /\
    base64_encode g0 g1 g2 (fopen bs2) = Ok st2 /\
    base64_encode g0 g1 g2 (fopen (bs1 ++ bs2)) = Ok st /\
    st_out st1 = p ++ [CR; LF] /\
    st_out st = p ++ st_out st2.
Proof.
  intros Hlen.
  destruct (base64_encode_spec g0 g1 g2 (fopen bs1) eq_refl eq_refl)
    as (st1 & Hrun1 & Hout1 & _).
  destruct (base64_encode_spec g0 g1 g2 (fopen bs2) eq_refl eq_refl)
    as (st2 & Hrun2 & Hout2 & _).
  destruct (base64_encode_spec g0 g1 g2 (fopen (bs1 ++ bs2)) eq_refl eq_refl)
    as (st & Hrun & Hout & _).
  cbn [fopen unread] in Hout1, Hout2, Hout.
  destruct (render_whole_lines n (map encode_bytes (blocks bs1))
              (map encode_bytes (blocks bs2))) as (p & Hp1 & Hp2).
  { rewrite length_map. apply blocks_exact. lia. }
  exists st1, st2, st, p.
  split; [exact Hrun1 |]. split; [exact Hrun2 |]. split; [exact Hrun |].
  split; [rewrite Hout1; exact Hp1 |].
  rewrite Hout, Hout2. unfold encoded_text.
  rewrite (blocks_app (19 * n)) by lia. rewrite map_app. exact Hp2.
Qed.

Lemma X10_cut_at_lines_witness :
  length input57 = (57 * 1)%nat /\
  exists st1 st2 st p,
    base64_encode x00 x00 x00 (fopen input57) = Ok st1 /\
    base64_encode x00 x00 x00 (fopen [x4d]) = Ok st2 /\
    base64_encode x00 x00 x00 (fopen (input57 ++ [x4d])) = Ok st /\
    st_out st1 = p ++ [CR; LF] /\
    st_out st = p ++ st_out st2.
Proof.
  split; [reflexivity |].
  apply (X10_cut_at_lines 1 input57 [x4d] x00 x00 x00). reflexivity.
Defined.

(** ** The table *)

Lemma table_checked : forallb table_checks (seq 0 64) = true.
Proof. vm_compute. reflexivity. Qed.

(** X11.  The table is the alphabet of RFC 2045 in its order: entry [k] is
    the [k]-th character of [A]-[Z], [a]-[z], [0]-[9], [+], [/]; no
    character stands for two values; and element 64 of the array is the
    zero that ends the string literal. *)
Theorem X11_table_is_rfc2045 :
  (forall k, 0 <= k <= 63 -> load base64_table k = Ok (rfc2045_char k)) /\
  NoDup alphabet /\
  length base64_table = 65%nat /\
  load base64_table 64 = Ok NUL.
Proof.
  split; [| split; [| split; reflexivity]].
  - intros k Hk. pose proof table_checked as Hall.
    rewrite forallb_forall in Hall.
    assert (Hin : In (Z.to_nat k) (seq 0 64)) by (apply in_seq; lia).
    specialize (Hall _ Hin). unfold table_checks in Hall.
    rewrite Z2Nat.id in Hall by lia.
    destruct (load base64_table k) as [c | e]; [| discriminate].
    apply Ascii.eqb_eq in Hall. congruence.
  - apply (NoDup_nth alphabet NUL). intros i j Hi Hj Heq.
    rewrite alphabet_length in Hi, Hj.
    destruct (symbol_facts (Z.of_nat i)) as (Hsi & _); [lia |].
    destruct (symbol_facts (Z.of_nat j)) as (Hsj & _); [lia |].
    unfold symbol in Hsi, Hsj. rewrite !Nat2Z.id in Hsi, Hsj.
    rewrite Heq in Hsi. rewrite Hsi in Hsj. injection Hsj as Hij. lia.
Qed.

Lemma X11_table_is_rfc2045_witness :
  0 <= 62 <= 63 /\ load base64_table 62 = Ok "+"%char.
Proof.
  split; [lia |].
  destruct X11_table_is_rfc2045 as (Hk & _).
  apply (Hk 62). lia.
Defined.

(** ** The program *)

(** X12.  [main] has no undefined behaviour, and for files of finitely
    many bytes ends in one of five ways.  It aborts in [assert(feof(in))]
    exactly when its one argument names a file that opens and whose reading
    meets an error.  Otherwise it returns: 1 exactly when the number of
    arguments is not one, 2 exactly when the file cannot be opened, in both
    cases after one diagnostic and with nothing written to [stdout]; and 0
    or 3, 0 exactly when nothing went to [stderr]. *)
Theorem X12_main_outcomes (env : environment) (g0 g1 g2 : byte)
  (argv : list string) :
  (main env g0 g1 g2 argv = Fault AssertionFailed <->
   exists prog path contents,
     argv = [prog; path] /\ file_at env path = Some (contents, true)) /\
  (main env g0 g1 g2 argv <> Fault AssertionFailed ->
   exists o,
     main env g0 g1 g2 argv = Ok o /\
     (exit_status o = 0 \/ exit_status o = 1 \/
      exit_status o = 2 \/ exit_status o = 3) /\
     (exit_status o = 1 <-> length argv <> 2%nat) /\
     (exit_status o = 2 <->
      exists prog path, argv = [prog; path] /\ file_at env path = None) /\
     (exit_status o = 1 \/ exit_status o = 2 ->
      std_out o = [] /\ length (std_err o) = 1%nat) /\
     (exit_status o = 0 <-> std_err o = [])).
Proof.
  unfold main.
  destruct (Z.eqb_spec (Z.of_nat (length argv)) 2) as [Hargc | Hargc];
    cbn [negb].
  - destruct argv as [| prog [| path [| extra argv]]];
      cbn [length] in Hargc; try lia.
    cbn [nth_error].
    destruct (file_at env path) as [[contents fails] |] eqn:Hfile.
    + destruct fails.
      * rewrite base64_encode_abort by reflexivity. cbn [bind].
        split; [| intros Hno; destruct (Hno eq_refl)].
        split; [| reflexivity].
        intros _. exists prog, path, contents. auto.
      * destruct (base64_encode_spec g0 g1 g2 (fopen_device contents false)
                    eq_refl eq_refl) as (st & Hrun & _).
        rewrite Hrun. cbn [bind].
        assert (Hopen : ~ exists p1 p2 : string,
                  [prog; path] = [p1; p2] /\ file_at env p2 = None).
        { intros (p1 & p2 & Heq & Hnone). injection Heq as _ <-.
          congruence. }
        split.
        { split; [destruct (fclose_fails env); discriminate |].
          intros (p1 & p2 & c & Heq & Hsome). injection Heq as _ <-.
          congruence. }
        intros _.
        destruct (fclose_fails env); eexists; (split; [reflexivity |]);
          cbn [exit_status std_out std_err length].
        -- split; [lia |]. split; [lia |].
           split; [split; [discriminate | tauto] |].
           split; [intros [H | H]; discriminate H |].
           split; discriminate.
        -- split; [lia |]. split; [lia |].
           split; [split; [discriminate | tauto] |].
           split; [intros [H | H]; discriminate H |].
           split; reflexivity.
    + split.
      { split; [discriminate |].
        intros (p1 & p2 & c & Heq & Hsome). injection Heq as _ <-.
        congruence. }
      intros _. eexists. split; [reflexivity |].
      cbn [exit_status std_out std_err length].
      split; [lia |]. split; [lia |].
      split; [split; [intros _; exists prog, path; auto | reflexivity] |].
      split; [intros _; split; reflexivity |].
      split; discriminate.
  - split.
    { split; [discriminate |].
      intros (p1 & p2 & c & -> & _). exfalso. apply Hargc. reflexivity. }
    intros _. eexists. split; [reflexivity |].
    cbn [exit_status std_out std_err length].
    split; [lia |]. split; [lia |].
    split.
    { split; [discriminate |].
      intros (p1 & p2 & -> & _). exfalso. apply Hargc. reflexivity. }
    split; [intros _; split; reflexivity |].
    split; discriminate.
Qed.

Lemma X12_main_outcomes_witness :
  main {| file_at := fun _ => Some ([], true); fclose_fails := false |}
    x00 x00 x00 ["encoder"; "dir"]%string
  = Fault AssertionFailed.
Proof.
  destruct (X12_main_outcomes
              {| file_at := fun _ => Some ([], true); fclose_fails := false |}
              x00 x00 x00 ["encoder"; "dir"]%string) as (Hiff & _).
  apply Hiff. exists "encoder"%string, "dir"%string, []. split; reflexivity.
Defined.

(** X13.  When the one argument names a file that opens and is read to its
    end without error, [stdout] receives the whole text of its bytes, which
    the reference decoder takes back to them, also when closing the file
    fails afterwards: the status is then 3, and 0 otherwise. *)
Theorem X13_main_encodes_the_file (env : environment) (g0 g1 g2 : byte)
  (prog path : string) (contents : list byte) :
  file_at env path = Some (contents, false) ->
  exists o st,
    main env g0 g1 g2 [prog; path] = Ok o /\
    base64_encode g0 g1 g2 (fopen contents) = Ok st /\
    std_out o = st_out st /\
    reference_decode (strip_crlf (std_out o)) = Some contents /\
    exit_status o = (if fclose_fails env then 3 else 0).
Proof.
  intros Hfile.
  destruct (base64_encode_spec g0 g1 g2 (fopen contents) eq_refl eq_refl)
    as (st & Hrun & Hout & _).
  assert (Hdec : reference_decode (strip_crlf (st_out st)) = Some contents).
  { rewrite Hout. unfold encoded_text. cbn [fopen unread].
    rewrite strip_render.
    - apply decode_encoded.
    - apply Forall_map. apply Forall_forall. intros b _.
      apply encode_bytes_plain. }
  unfold main. cbn [length nth_error]. change (Z.of_nat 2 =? 2) with true.
  cbn [negb]. rewrite Hfile.
  change (fopen_device contents false) with (fopen contents).
  rewrite Hrun. cbn [bind].
  destruct (fclose_fails env); eexists; exists st;
    cbn [exit_status std_out std_err]; repeat split; assumption.
Qed.

Lemma X13_main_encodes_the_file_witness :
  let env := {| file_at := fun _ => Some ([x4d; x61; x6e], false);
                fclose_fails := true |} in
  file_at env "in.bin" = Some ([x4d; x61; x6e], false) /\
  exists o st,
    main env x00 x00 x00 ["encoder"; "in.bin"]%string = Ok o /\
    base64_encode x00 x00 x00 (fopen [x4d; x61; x6e]) = Ok st /\
    std_out o = st_out st /\
    reference_decode (strip_crlf (std_out o)) = Some [x4d; x61; x6e] /\
    exit_status o = 3.
Proof.
  cbv zeta. split; [reflexivity |].
  apply (X13_main_encodes_the_file
           {| file_at := fun _ => Some ([x4d; x61; x6e], false);
              fclose_fails := true |}
           x00 x00 x00 "encoder" "in.bin" [x4d; x61; x6e]).
  reflexivity.
Defined.
